(** * chisel: session coordinator, channel dispatcher and proxy manager

    A shallow embedding of [server/server.go] (package [chserver]),
    of the channel dispatcher of package [chshare] ([handleSSHRequests],
    [handleSSHChannels], [handleSSHChannel], [handleSocks], [handleTCP])
    and of [share/tunnel_in_proxy.go] ([Proxy]), followed by the
    properties of the tunnel engine that are stated over them.

    Conventions.  Go strings and byte slices are [string]; a Go [int] is a
    [Z] wrapped to 64 bits; a Go map is a [gmap]; a pointer that may be
    [nil] is an [option]; an [error] is [option string] ([None] is [nil],
    [Some msg] carries the text of [err.Error()]).  What a function does to
    the outside world is recorded as a list of events, oldest first, and
    what the outside world answers (the transport handshake, the peer's
    requests, the result of a dial) is an explicit argument. *)

From Stdlib Require Import ZArith String List Bool Lia.
From stdpp Require Import base gmap strings list.

Local Open Scope Z_scope.

(* ===================================================================== *)
(** * Part I: the embedding                                               *)
(* ===================================================================== *)

(** ** Package [chshare]: shared types *)

Module chshare.

(** [int]: 64-bit two's complement. *)
Definition wrap_int (z : Z) : Z := (z + 2 ^ 63) mod 2 ^ 64 - 2 ^ 63.

(** [strings.HasSuffix]:
    [len(s) >= len(suffix) && s[len(s)-len(suffix):] == suffix]. *)
Definition HasSuffix (s suffix : string) : bool :=
  (String.length suffix <=? String.length s)%nat &&
  String.eqb
    (String.substring (String.length s - String.length suffix)
                      (String.length suffix) s)
    suffix.

(** The fields of [Remote] that these files read. *)
Record Remote := mkRemote {
  LocalHost : string;
  LocalPort : string;
  LocalProto : string;
  RemoteHost : string;
  RemotePort : string;
  Stdio : bool
}.

Record Config := mkConfig { Remotes : list Remote }.

(** [User]: name, password and the allow-list of address patterns. *)
Record User := mkUser {
  Name : string;
  Pass : string;
  Addrs : list string
}.

(** The logger only matters here through the text it puts in front of a
    message. *)
Record Logger := mkLogger { prefix : string }.

(** Code that these files call but do not contain: how one allow-list
    pattern is matched against an address, the decoder of the config
    payload and the textual form of a rule ([Remote.Remote()]). *)
Class Collaborators := {
  MatchString : string -> string -> bool;
  DecodeConfig : string -> option Config;
  RemoteString : Remote -> string
}.

(** Modelled from the spec: [User.HasAccess] is declared outside these
    files.  "every ForwardingRule's remote address must match at
    least one of the user's allowed patterns". *)
Definition HasAccess `{Collaborators} (u : User) (addr : string) : bool :=
  existsb (fun pattern => MatchString pattern addr) (Addrs u).

(** Modelled from the spec: [Logger.Errorf] is declared outside these
    files.  The error it builds carries the formatted message
    ("payload carries a UTF-8 error message"), behind whatever the logger
    prefixes. *)
Definition Errorf (l : Logger) (msg : string) : string := prefix l +:+ msg.

(** ** Package [chshare]: the channel dispatcher ([Tunnel]) *)

(** Modelled from the spec: [ConnStats] is declared outside these
    files.  "process-wide open (currently live) and total (ever opened)
    counts, incremented on open, decremented (open only) on close."
    [New] counts one more connection ever opened and gives its number,
    [Open] and [Close] move the live count. *)
Record ConnStats := mkConnStats { total : Z; open : Z }.

Definition ConnStats_New (c : ConnStats) : ConnStats * Z :=
  (mkConnStats (total c + 1) (open c), total c + 1).

Definition ConnStats_Open (c : ConnStats) : ConnStats :=
  mkConnStats (total c) (open c + 1).

Definition ConnStats_Close (c : ConnStats) : ConnStats :=
  mkConnStats (total c) (open c - 1).

Inductive SocksServer := Socks5Server.

Record Tunnel := mkTunnel {
  tlogger : Logger;
  socksServer : option SocksServer;
  connStats : ConnStats
}.

Definition set_connStats (c : ConnStats) (t : Tunnel) : Tunnel :=
  mkTunnel (tlogger t) (socksServer t) c.

(** An inbound channel-open request: its purpose tag, and what the
    outside world answers while it is handled: the result of
    [ch.Accept()], of [net.Dial], of [Pipe], of the SOCKS server's
    [ServeConn] and of [handleUDP]. *)
Record NewChannel := mkNewChannel {
  ExtraData : string;
  AcceptErr : option string;
  DialErr : option string;
  PipeSent : Z;
  PipeReceived : Z;
  ServeErr : option string;
  UDPErr : option string
}.

Inductive RejectionReason :=
| Prohibited
| ConnectionFailed
| UnknownChannelType
| ResourceShortage.

Inductive TunnelEvent :=
| TDebugf (msg : string)
| ChReject (reason : RejectionReason) (msg : string)
| ChAccept
| TGoDiscardRequests
| LogOpen (id : Z) (stats : ConnStats)
| ServeConn
| HandleUDP
| NetDial (network addr : string)
| TPipe
| LogSent (id : Z) (sent received : Z)
| LogClose (id : Z) (stats : ConnStats) (err : option string)
| StreamClose
| ReqReply (ok : bool).

(** [handleSSHRequests]: one request of the loop. *)
Definition handleSSHRequest (rtype : string) : list TunnelEvent :=
  if String.eqb rtype "ping" then [ReqReply true]
  else [TDebugf ("Unknown request: " +:+ rtype)].

Definition handleSSHRequests (reqs : list string) : list TunnelEvent :=
  flat_map handleSSHRequest reqs.

Definition handleSocks (ch : NewChannel) : list TunnelEvent * option string :=
  ([ServeConn], ServeErr ch).

(** [handleUDP] is declared outside these files; only the error it
    returns matters to its caller. *)
Definition handleUDP (ch : NewChannel) : list TunnelEvent * option string :=
  ([HandleUDP], UDPErr ch).

Definition handleTCP (id : Z) (ch : NewChannel) (remote : string)
    : list TunnelEvent * option string :=
  match DialErr ch with
  | Some err => ([NetDial "tcp" remote], Some err)
  | None =>
      ([NetDial "tcp" remote; TPipe;
        LogSent id (PipeSent ch) (PipeReceived ch)], None)
  end.

(** The protocol switch of [handleSSHChannel] (lines 49-55). *)
Definition protocolHandler (id : Z) (ch : NewChannel)
    : list TunnelEvent * option string :=
  let remote := ExtraData ch in
  let udp := String.eqb remote "udp" in
  let socks := String.eqb remote "socks" in
  if socks then handleSocks ch
  else if udp then handleUDP ch
  else handleTCP id ch remote.

(** The error that the closing log line shows:
    [err != nil && !strings.HasSuffix(err.Error(), "EOF")]. *)
Definition closeError (err : option string) : option string :=
  match err with
  | Some e => if negb (HasSuffix e "EOF") then Some e else None
  | None => None
  end.

(** [handleSSHChannel(ch)], run from its first line to its return with no
    other handler in between. *)
Definition handleSSHChannel (t : Tunnel) (ch : NewChannel)
    : Tunnel * list TunnelEvent :=
  let remote := ExtraData ch in
  let socks := String.eqb remote "socks" in
  if socks && bool_decide (socksServer t = None) then
    (t, [TDebugf "Denied socks request, please enable socks";
         ChReject Prohibited "SOCKS5 is not enabled"])
  else
    match AcceptErr ch with
    | Some err => (t, [TDebugf ("Failed to accept stream: " +:+ err)])
    | None =>
        let '(stats1, id) := ConnStats_New (connStats t) in
        let stats2 := ConnStats_Open stats1 in
        let '(evs, err) := protocolHandler id ch in
        let stats3 := ConnStats_Close stats2 in
        (set_connStats stats3 t,
         [ChAccept; TGoDiscardRequests; LogOpen id stats2] ++ evs ++
         [LogClose id stats3 (closeError err); StreamClose])
    end.

(** [handleSSHChannels] with the handlers run one after the other. *)
Fixpoint handleSSHChannels (t : Tunnel) (chans : list NewChannel)
    : Tunnel * list TunnelEvent :=
  match chans with
  | [] => (t, [])
  | ch :: rest =>
      let '(t1, evs1) := handleSSHChannel t ch in
      let '(t2, evs2) := handleSSHChannels t1 rest in
      (t2, evs1 ++ evs2)
  end.

(** *** The handlers as concurrent tasks

    [handleSSHChannels] starts every handler with [go], so handlers
    interleave.  A handler is cut at its accesses to the shared
    [connStats]; [Pc] is where a handler stands. *)
Inductive Pc :=
| AtStart
| AtNew
| AtOpen (id : Z)
| AtLogOpen (id : Z)
| AtHandler (id : Z)
| AtClose (id : Z) (err : option string)
| AtLogClose (id : Z) (err : option string)
| AtReturn.

(** One atomic step of the handler of [ch]. *)
Definition stepChannel (t : Tunnel) (ch : NewChannel) (pc : Pc)
    : Tunnel * list TunnelEvent * Pc :=
  match pc with
  | AtStart =>
      let remote := ExtraData ch in
      let socks := String.eqb remote "socks" in
      if socks && bool_decide (socksServer t = None) then
        (t, [TDebugf "Denied socks request, please enable socks";
             ChReject Prohibited "SOCKS5 is not enabled"], AtReturn)
      else
        match AcceptErr ch with
        | Some err =>
            (t, [TDebugf ("Failed to accept stream: " +:+ err)], AtReturn)
        | None => (t, [ChAccept; TGoDiscardRequests], AtNew)
        end
  | AtNew =>
      let '(stats1, id) := ConnStats_New (connStats t) in
      (set_connStats stats1 t, [], AtOpen id)
  | AtOpen id =>
      (set_connStats (ConnStats_Open (connStats t)) t, [], AtLogOpen id)
  | AtLogOpen id => (t, [LogOpen id (connStats t)], AtHandler id)
  | AtHandler id =>
      let '(evs, err) := protocolHandler id ch in (t, evs, AtClose id err)
  | AtClose id err =>
      (set_connStats (ConnStats_Close (connStats t)) t, [], AtLogClose id err)
  | AtLogClose id err =>
      (t, [LogClose id (connStats t) (closeError err); StreamClose], AtReturn)
  | AtReturn => (t, [], AtReturn)
  end.

(** A handler is running its protocol handler from the return of
    [connStats.Open()] to the call of [connStats.Close()]. *)
Definition running (pc : Pc) : bool :=
  match pc with
  | AtLogOpen _ | AtHandler _ | AtClose _ _ => true
  | _ => false
  end.

Fixpoint runChannel (n : nat) (t : Tunnel) (ch : NewChannel) (pc : Pc)
    : Tunnel * list TunnelEvent * Pc :=
  match n with
  | O => (t, [], pc)
  | S n' =>
      let '(t1, evs1, pc1) := stepChannel t ch pc in
      let '(t2, evs2, pc2) := runChannel n' t1 ch pc1 in
      (t2, evs1 ++ evs2, pc2)
  end.

(** The dispatcher of one session: the tunnel, the handlers started so
    far and the events so far. *)
Record Dispatcher := mkDispatcher {
  tunnel : Tunnel;
  handlers : list (NewChannel * Pc);
  trace : list TunnelEvent
}.

(** The number of handlers that are running their protocol handler. *)
Fixpoint countRunning (hs : list (NewChannel * Pc)) : Z :=
  match hs with
  | [] => 0
  | (_, pc) :: rest => (if running pc then 1 else 0) + countRunning rest
  end.

Definition live (d : Dispatcher) : Z := countRunning (handlers d).

Inductive dispatch : Dispatcher -> Dispatcher -> Prop :=
| dispatch_go d ch :
    dispatch d
      (mkDispatcher (tunnel d) (handlers d ++ [(ch, AtStart)]) (trace d))
| dispatch_step d i ch pc t' evs pc' :
    handlers d !! i = Some (ch, pc) ->
    pc <> AtReturn ->
    stepChannel (tunnel d) ch pc = (t', evs, pc') ->
    dispatch d
      (mkDispatcher t' (<[i := (ch, pc')]> (handlers d)) (trace d ++ evs)).

(** ** Package [chshare]: the proxy manager ([share/tunnel_in_proxy.go]) *)

(** What [p.ssh()] gives when it is not [nil]: a connection, known here by
    what [OpenChannel] and then [Pipe] yield on it. *)
Inductive SSHConn :=
| OpenChannelFails (err : string)
| OpenChannelOK (sent received : Z).

Record Proxy := mkProxy {
  plogger : Logger;
  id : Z;
  count : Z;
  remote : Remote
}.

Definition set_count (n : Z) (p : Proxy) : Proxy :=
  mkProxy (plogger p) (id p) n (remote p).

(** The local side of a forwarded connection: the process's standard
    streams, or the [n]-th connection accepted by the TCP listener. *)
Inductive Src :=
| StdioSrc
| TCPSrc (n : nat).

Inductive ProxyEvent :=
| ConnDebugf (cid : Z) (msg : string)
| ConnInfof (cid : Z) (msg : string)
| PInfof (msg : string)
| OpenChannel (name : string) (data : string)
| PGoDiscardRequests
| PPipe (src : Src)
| ConnLogClose (cid : Z) (sent received : Z)
| SrcClose (src : Src)
| ListenerClose
| UDPRun.

(** [pipeRemote(src)]; [conn] is what [p.ssh()] returns at line 124.
    [defer src.Close()] runs last on every path. *)
Definition pipeRemote `{Collaborators} (p : Proxy) (src : Src)
    (conn : option SSHConn) : Proxy * list ProxyEvent :=
  let p1 := set_count (wrap_int (count p + 1)) p in
  let cid := count p1 in
  let body :=
    match conn with
    | None => [ConnDebugf cid "No remote connection"]
    | Some c =>
        OpenChannel "chisel" (RemoteString (remote p)) ::
        match c with
        | OpenChannelFails err => [ConnInfof cid ("Stream error: " +:+ err)]
        | OpenChannelOK sent received =>
            [PGoDiscardRequests; PPipe src; ConnLogClose cid sent received]
        end
    end in
  (p1, ConnDebugf cid "Open" :: body ++ [SrcClose src]).

(** [runStdio(ctx)].  [ssh i] is what [p.ssh()] returns in round [i] of
    the loop and [done i] tells whether [ctx.Done()] is ready at the
    [select] of that round.  [None]: the loop is still going when the
    fuel is spent. *)
Fixpoint runStdio `{Collaborators} (fuel : nat) (p : Proxy)
    (ssh : nat -> option SSHConn) (done : nat -> bool) (i : nat)
    : option (Proxy * list ProxyEvent) :=
  match fuel with
  | O => None
  | S fuel' =>
      let '(p1, evs) := pipeRemote p StdioSrc (ssh i) in
      if done i then Some (p1, evs)
      else
        match runStdio fuel' p1 ssh done (S i) with
        | Some (p2, evs') => Some (p2, evs ++ evs')
        | None => None
        end
  end.

(** One answer of [p.tcp.Accept()]: a connection (with what [p.ssh()]
    gives to the [pipeRemote] started for it), or an error, which is the
    closed listener when the context was cancelled. *)
Inductive AcceptResult :=
| Accepted (conn : option SSHConn)
| AcceptFailed (err : string) (cancelled : bool).

(** [runTCP(ctx)], each [go p.pipeRemote(src)] run where it is started.
    [None]: the listener is still accepting after the last answer. *)
Fixpoint runTCP `{Collaborators} (p : Proxy) (answers : list AcceptResult)
    (n : nat) : option (Proxy * list ProxyEvent * string) :=
  match answers with
  | [] => None
  | Accepted conn :: rest =>
      let '(p1, evs) := pipeRemote p (TCPSrc n) conn in
      match runTCP p1 rest (S n) with
      | Some (p2, evs', err) => Some (p2, evs ++ evs', err)
      | None => None
      end
  | AcceptFailed err cancelled :: _ =>
      Some (p,
            (if cancelled then [ListenerClose; PInfof "Closed"]
             else [PInfof ("Accept error: " +:+ err)]),
            err)
  end.

(** What the outside world answers during one [Run]. *)
Record RunEnv := mkRunEnv {
  ssh : nat -> option SSHConn;
  done : nat -> bool;
  answers : list AcceptResult;
  udpRun : option string
}.

Inductive RunResult :=
| Returns (err : option string)
| Panics (msg : string)
| StillRunning.

(** [Run(ctx)].  The [stdio] branch calls [p.runStdio(ctx)] without
    [return], so control goes on to the statement after the [if] chain. *)
Definition Run `{Collaborators} (fuel : nat) (p : Proxy) (env : RunEnv)
    : Proxy * list ProxyEvent * RunResult :=
  if Stdio (remote p) then
    match runStdio fuel p (ssh env) (done env) 0 with
    | Some (p1, evs) => (p1, evs, Panics "should not get here")
    | None => (p, [], StillRunning)
    end
  else if String.eqb (LocalProto (remote p)) "tcp" then
    match runTCP p (answers env) 0 with
    | Some (p1, evs, err) => (p1, evs, Returns (Some err))
    | None => (p, [], StillRunning)
    end
  else if String.eqb (LocalProto (remote p)) "udp" then
    (p, [UDPRun], Returns (udpRun env))
  else (p, [], Panics "should not get here").

(** [listen()].  What the outside world answers: the results of
    [net.ResolveTCPAddr], of [net.ListenTCP] and of [bindSSHUDP]. *)
Record ListenEnv := mkListenEnv {
  resolveErr : option string;
  listenErr : option string;
  bindErr : option string
}.

(** What [listen] stores: [p.tcp] or [p.udp]. *)
Inductive Listener :=
| TCPListener
| UDPListener.

Definition listen (p : Proxy) (env : ListenEnv)
    : option Listener * list ProxyEvent * option string :=
  if Stdio (remote p) then (None, [], None)
  else if String.eqb (LocalProto (remote p)) "tcp" then
    match resolveErr env with
    | Some err => (None, [], Some (Errorf (plogger p) ("resolve: " +:+ err)))
    | None =>
        match listenErr env with
        | Some err => (None, [], Some (Errorf (plogger p) ("tcp: " +:+ err)))
        | None => (Some TCPListener, [PInfof "Listening"], None)
        end
    end
  else if String.eqb (LocalProto (remote p)) "udp" then
    match bindErr env with
    | Some err => (None, [], Some err)
    | None => (Some UDPListener, [PInfof "Listening"], None)
    end
  else (None, [], Some (Errorf (plogger p) "unknown local proto")).

(** [NewProxy(logger, ssh, index, remote)]; [fork] is
    [logger.Fork("proxy#%d: %s", id, remote)].  The proxy is returned
    together with the result of [p.listen()], also when that is an
    error. *)
Definition NewProxy (fork : Z -> Remote -> Logger) (index : Z)
    (r : Remote) (env : ListenEnv)
    : Proxy * (option Listener * list ProxyEvent * option string) :=
  let id := wrap_int (index + 1) in
  let p := mkProxy (fork id r) id 0 r in
  (p, listen p env).

(** A handler holds an accepted stream from the return of [ch.Accept()]
    to its deferred [stream.Close()]. *)
Definition holding (pc : Pc) : bool :=
  match pc with
  | AtStart | AtReturn => false
  | _ => true
  end.

Fixpoint countHolding (hs : list (NewChannel * Pc)) : Z :=
  match hs with
  | [] => 0
  | (_, pc) :: rest => (if holding pc then 1 else 0) + countHolding rest
  end.

(** What holds of a dispatcher that started from the tunnel [t0]: the
    SOCKS server is the one of [t0], and it is there whenever a handler
    for a "socks" channel holds a stream or [ServeConn] was called. *)
Definition socksInv (t0 : Tunnel) (d : Dispatcher) : Prop :=
  socksServer (tunnel d) = socksServer t0 /\
  (forall i ch pc,
     handlers d !! i = Some (ch, pc) ->
     holding pc = true ->
     ExtraData ch = "socks"%string -> socksServer t0 <> None) /\
  (In ServeConn (trace d) -> socksServer t0 <> None).

Definition isReply (e : TunnelEvent) : bool :=
  match e with ReqReply _ => true | _ => false end.

(** The two ways a channel ends before [ch.Accept()] has given a stream:
    the "socks" tag without a SOCKS server, and a failed accept. *)
Definition refused (t : Tunnel) (ch : NewChannel) : bool :=
  (String.eqb (ExtraData ch) "socks" && bool_decide (socksServer t = None))
  || match AcceptErr ch with Some _ => true | None => false end.

Definition isAccept (e : TunnelEvent) : bool :=
  match e with ChAccept => true | _ => false end.

Definition isStreamClose (e : TunnelEvent) : bool :=
  match e with StreamClose => true | _ => false end.

Fixpoint countEvents (f : TunnelEvent -> bool) (evs : list TunnelEvent) : Z :=
  match evs with
  | [] => 0
  | e :: rest => (if f e then 1 else 0) + countEvents f rest
  end.

End chshare.

(** ** Package [chserver]: [server/server.go] *)

Module chserver.
Import chshare.

Record Server := mkServer {
  logger : Logger;
  Users : gmap string User;
  wsCount : Z;
  sessions : gmap string User
}.

Definition set_sessions (f : gmap string User -> gmap string User)
    (s : Server) : Server :=
  mkServer (logger s) (Users s) (wsCount s) (f (sessions s)).

Definition set_wsCount (n : Z) (s : Server) : Server :=
  mkServer (logger s) (Users s) n (sessions s).

(** [authUser(c, pass)]: [user] is [c.User()], [sid] is [c.SessionID()].
    The permissions are [nil] on every path, so only the error is kept. *)
Definition authUser (s : Server) (user sid pass : string)
    : Server * option string :=
  if decide (size (Users s) = 0%nat) then (s, None)
  else
    match Users s !! user with
    | None => (s, Some "Invalid auth"%string)
    | Some u =>
        if negb (String.eqb (Pass u) pass)
        then (s, Some "Invalid auth"%string)
        else (set_sessions <[sid := u]> s, None)
    end.

(** An out-of-band request. *)
Record Request := mkRequest { ReqType : string; Payload : string }.

(** What [ssh.NewServerConn] gives: an error, or a connection with its
    session id and the first value read from [reqs] ([None] when the
    request channel is closed before any request arrives). *)
Inductive Handshake :=
| HandshakeFailed (err : string)
| HandshakeOK (sid : string) (first : option Request).

Inductive Event :=
| Debugf (msg : string)
| Reply (ok : bool) (payload : string)
| ConnClose
| SessionDebugf (id : Z) (msg : string)
| GoDiscardRequests
| GoConnectStreams (id : Z)
| ConnWait.

(** How [handleWS] ends: the handshake failed; the config request was
    rejected; the session was served (it went through [go
    ssh.DiscardRequests], [go chshare.ConnectStreams] and [sshConn.Wait()]
    and then closed); or a panic. *)
Inductive Ending :=
| HandshakeError
| Rejected
| Served
| Panicked.

(** The closure [reply]:
    [r.Reply(err == nil, []byte(err.Error())); if err != nil { sshConn.Close() }].
    [err.Error()] is evaluated as an argument of [r.Reply], so a [nil]
    error panics before anything is sent. *)
Definition reply (err : option string) : list Event * Ending :=
  match err with
  | None => ([], Panicked)
  | Some msg =>
      ([Reply (bool_decide (err = None)) msg; ConnClose], Rejected)
  end.

(** [addr := r.RemoteHost + ":" + r.RemotePort]. *)
Definition remoteAddr (r : Remote) : string :=
  RemoteHost r +:+ ":" +:+ RemotePort r.

(** The loop [for _, r := range c.Remotes] of [handleWS]: the address of
    the first rule the user has no access to, if any. *)
Fixpoint firstDenied `{Collaborators} (u : User) (rs : list Remote)
    : option string :=
  match rs with
  | [] => None
  | r :: rs' =>
      let addr := remoteAddr r in
      if negb (HasAccess u addr) then Some addr else firstDenied u rs'
  end.

Definition loadUser (s : Server) (sid : string) : option User :=
  if decide (0 < size (Users s))%nat then sessions s !! sid else None.

(** [handleWS(ws)], run until it returns. *)
Definition handleWS `{Collaborators} (s : Server) (hs : Handshake)
    : Server * list Event * Ending :=
  match hs with
  | HandshakeFailed err =>
      (s, [Debugf ("Failed to handshake (" +:+ err +:+ ")")], HandshakeError)
  | HandshakeOK sid first =>
      let user := loadUser s sid in
      match first with
      | None => (s, [], Panicked)
      | Some r =>
          if negb (String.eqb (ReqType r) "config") then
            let '(evs, e) :=
              reply (Some (Errorf (logger s) "expecting config request")) in
            (s, evs, e)
          else
            match DecodeConfig (Payload r) with
            | None =>
                let '(evs, e) :=
                  reply (Some (Errorf (logger s) "invalid config")) in
                (s, evs, e)
            | Some c =>
                match from_option (fun u => firstDenied u (Remotes c))
                                  None user with
                | Some addr =>
                    let '(evs, e) :=
                      reply (Some (Errorf (logger s)
                               ("access to '" +:+ addr +:+ "' denied"))) in
                    (s, evs, e)
                | None =>
                    let s1 := set_wsCount (wrap_int (wsCount s + 1)) s in
                    let id := wsCount s1 in
                    let s2 :=
                      match user with
                      | Some _ => set_sessions (delete sid) s1
                      | None => s1
                      end in
                    (s2,
                     [SessionDebugf id "Open"; GoDiscardRequests;
                      GoConnectStreams id; ConnWait;
                      SessionDebugf id "Close"],
                     Served)
                end
            end
      end
  end.

(** The server over time: calls of the password callback and handled
    websocket connections, in the order they run. *)
Inductive Op :=
| Authenticate (user sid pass : string)
| Session (hs : Handshake).

Definition runOp `{Collaborators} (s : Server) (op : Op) : Server :=
  match op with
  | Authenticate user sid pass => (authUser s user sid pass).1
  | Session hs => (handleWS s hs).1.1
  end.

Definition runOps `{Collaborators} (s : Server) (ops : list Op) : Server :=
  fold_left runOp ops s.

(** [NewServer] as far as the session store goes: [sessions] starts
    empty, [Users] is what the auth file held (empty without one). *)
Definition NewServer (users : gmap string User) : Server :=
  mkServer (mkLogger "server: ") users 0 ∅.

(** The rule's remote address matches at least one pattern of the user's
    allow-list. *)
Definition allowed `{Collaborators} (u : User) (r : Remote) : Prop :=
  exists pattern,
    In pattern (Addrs u) /\ MatchString pattern (remoteAddr r) = true.

(** The sessions that went through the serving phase while [ops] ran
    from [s]. *)
Fixpoint servedCount `{Collaborators} (s : Server) (ops : list Op) : Z :=
  match ops with
  | [] => 0
  | op :: rest =>
      match op with
      | Session hs =>
          match (handleWS s hs).2 with Served => 1 | _ => 0 end
      | Authenticate _ _ _ => 0
      end + servedCount (runOp s op) rest
  end.

(** [a] occurs in [s]. *)
Definition occurs_in (a s : string) : Prop :=
  exists before after, s = before +:+ a +:+ after.

End chserver.

(** ** Concrete data for the examples *)

Module scenario.
Import chshare chserver.

Definition rule (host port : string) : Remote :=
  mkRemote "127.0.0.1" "9000" "tcp" host port false.

(** Patterns match an address when they are equal to it; three payloads
    decode, every other one is malformed. *)
#[export] Instance exact : Collaborators := {|
  MatchString pattern addr := String.eqb pattern addr;
  DecodeConfig payload :=
    if String.eqb payload "example" then
      Some (mkConfig [rule "example" "80"])
    else if String.eqb payload "example.com+internal" then
      Some (mkConfig [rule "example.com" "80"; rule "internal" "22"])
    else if String.eqb payload "example.com" then
      Some (mkConfig [rule "example.com" "80"])
    else None;
  RemoteString r := remoteAddr r
|}.

Definition bob : User := mkUser "bob" "secret" ["example.com:80"%string].

Definition anonymous : Server := NewServer ∅.

Definition withBob : Server := NewServer {[ "bob"%string := bob ]}.

(** [withBob] once bob has authenticated on session "s1". *)
Definition bobIn : Server := (authUser withBob "bob" "s1" "secret").1.

(** A tunnel without SOCKS support and with no connection so far. *)
Definition plain : Tunnel := mkTunnel (mkLogger "tunnel: ") None (mkConnStats 0 0).

Definition socksChannel : NewChannel :=
  mkNewChannel "socks" None None 0 0 None None.

(** A channel for "db:5432" whose dial fails in the name lookup, the
    resolver's stream having ended early. *)
Definition lookupError : string :=
  "dial tcp: lookup db on 10.0.0.2:53: unexpected EOF".

Definition dbChannel : NewChannel :=
  mkNewChannel "db:5432" None (Some lookupError) 0 0 None None.

(** A channel for "web:80" whose dial is refused. *)
Definition refusedError : string :=
  "dial tcp 10.0.0.7:80: connect: connection refused".

Definition webChannel : NewChannel :=
  mkNewChannel "web:80" None (Some refusedError) 0 0 None None.

(** [plain] with the handler of [webChannel] started and advanced to its
    protocol handler. *)
Definition webServing : Dispatcher :=
  mkDispatcher (mkTunnel (mkLogger "tunnel: ") None (mkConnStats 1 1))
    [(webChannel, AtLogOpen 1)] [ChAccept; TGoDiscardRequests].

(** A proxy for a stdio rule, and a run in which the transport is not
    connected and the context is cancelled during the third round. *)
Definition stdioProxy : Proxy :=
  mkProxy (mkLogger "proxy#1: ") 1 0
    (mkRemote EmptyString EmptyString EmptyString "example.com" "80" true).

Definition cancelledInThird : RunEnv :=
  mkRunEnv (fun _ => None) (fun i => (2 <=? i)%nat) [] None.

(** A proxy for a tcp rule, a rule with a protocol that is not
    supported, a start-up in which every bind succeeds and a logger to
    fork from. *)
Definition tcpProxy : Proxy :=
  mkProxy (mkLogger "proxy#1: ") 1 0 (rule "example.com" "80").

Definition sctpRule : Remote :=
  mkRemote "127.0.0.1" "9000" "sctp" "example.com" "80" false.

Definition allBound : ListenEnv := mkListenEnv None None None.

Definition forkProxy (id : Z) (r : Remote) : Logger := mkLogger "proxy: ".

(** Two sessions served, one rejected and one authentication on a server
    without users. *)
Definition someOps : list Op :=
  [Session (HandshakeOK "s1" (Some (mkRequest "config" "example")));
   Session (HandshakeOK "s2" (Some (mkRequest "config" "garbled")));
   Authenticate "bob" "s3" "secret";
   Session (HandshakeOK "s3" (Some (mkRequest "config" "example.com")))].

Definition twoRules : Config :=
  mkConfig [rule "example.com" "80"; rule "internal" "22"].

End scenario.

(* ===================================================================== *)
(** * Part II: properties                                                 *)
(* ===================================================================== *)

Import chshare chserver.

(** ** The session coordinator *)

Section coordinator.
Context `{Collaborators}.

Lemma reply_error (msg : string) :
  reply (Some msg) = ([Reply false msg; ConnClose], Rejected).
Proof. reflexivity. Qed.

Lemma no_users_iff (s : Server) : size (Users s) = 0%nat <-> Users s = ∅.
Proof. apply map_size_empty_iff. Qed.

Lemma loadUser_anonymous (s : Server) (sid : string) :
  size (Users s) = 0%nat -> loadUser s sid = None.
Proof.
  intros Hz. unfold loadUser. case_decide as Hpos; [lia | reflexivity].
Qed.

Lemma loadUser_lookup (s : Server) (sid : string) :
  size (Users s) <> 0%nat -> loadUser s sid = sessions s !! sid.
Proof.
  intros Hz. unfold loadUser. case_decide as Hpos; [reflexivity | lia].
Qed.

(** [HasAccess] is the search for a matching pattern. *)
Lemma HasAccess_spec (u : User) (addr : string) :
  HasAccess u addr = true <->
  exists pattern, In pattern (Addrs u) /\ MatchString pattern addr = true.
Proof. unfold HasAccess. apply existsb_exists. Qed.

Lemma firstDenied_None (u : User) (rs : list Remote) :
  firstDenied u rs = None <->
  forallb (fun r => HasAccess u (remoteAddr r)) rs = true.
Proof.
  induction rs as [|r rs IH]; simpl.
  - tauto.
  - destruct (HasAccess u (remoteAddr r)); simpl.
    + exact IH.
    + split; discriminate.
Qed.

Lemma firstDenied_Some (u : User) (rs : list Remote) (addr : string) :
  firstDenied u rs = Some addr ->
  exists before r after,
    rs = before ++ r :: after /\
    forallb (fun r' => HasAccess u (remoteAddr r')) before = true /\
    HasAccess u (remoteAddr r) = false /\
    addr = remoteAddr r.
Proof.
  induction rs as [|r rs IH]; simpl; [discriminate|].
  destruct (HasAccess u (remoteAddr r)) eqn:Hr; simpl.
  - intros Hd. destruct (IH Hd) as (before & r0 & after & -> & Hb & Hr0 & ->).
    exists (r :: before), r0, after. simpl. rewrite Hr. auto.
  - intros [= <-]. exists [], r, rs. auto.
Qed.

Lemma append_assoc (x y z : string) : (x +:+ y) +:+ z = x +:+ y +:+ z.
Proof.
  induction x as [|ch x IH]; [reflexivity|].
  change (String ch ((x +:+ y) +:+ z) = String ch (x +:+ y +:+ z)).
  now rewrite IH.
Qed.

Lemma occurs_in_Errorf (l : Logger) (a pre post : string) :
  occurs_in a (Errorf l (pre +:+ a +:+ post)).
Proof.
  exists (prefix l +:+ pre), post. unfold Errorf.
  now rewrite append_assoc.
Qed.

(** The three ways [handleWS] can go once a request is read. *)
Lemma handleWS_wrong_type (s : Server) (sid : string) (r : Request) :
  ReqType r <> "config"%string ->
  handleWS s (HandshakeOK sid (Some r)) =
  (s, [Reply false (Errorf (logger s) "expecting config request"); ConnClose],
   Rejected).
Proof.
  intros Ht. unfold handleWS.
  destruct (String.eqb_spec (ReqType r) "config") as [E|E]; [contradiction|].
  reflexivity.
Qed.

Lemma handleWS_invalid (s : Server) (sid : string) (r : Request) :
  ReqType r = "config"%string ->
  DecodeConfig (Payload r) = None ->
  handleWS s (HandshakeOK sid (Some r)) =
  (s, [Reply false (Errorf (logger s) "invalid config"); ConnClose], Rejected).
Proof.
  intros Ht Hd. unfold handleWS. rewrite Ht, Hd. reflexivity.
Qed.

Lemma handleWS_denied (s : Server) (sid : string) (r : Request)
    (c : Config) (u : User) (addr : string) :
  ReqType r = "config"%string ->
  DecodeConfig (Payload r) = Some c ->
  loadUser s sid = Some u ->
  firstDenied u (Remotes c) = Some addr ->
  handleWS s (HandshakeOK sid (Some r)) =
  (s, [Reply false (Errorf (logger s) ("access to '" +:+ addr +:+ "' denied"));
       ConnClose], Rejected).
Proof.
  intros Ht Hd Hu Hf. unfold handleWS. rewrite Ht, Hd, Hu. simpl.
  rewrite Hf. reflexivity.
Qed.

Lemma handleWS_served (s : Server) (sid : string) (r : Request) (c : Config) :
  ReqType r = "config"%string ->
  DecodeConfig (Payload r) = Some c ->
  from_option (fun u => firstDenied u (Remotes c)) None (loadUser s sid)
    = None ->
  let n := wrap_int (wsCount s + 1) in
  handleWS s (HandshakeOK sid (Some r)) =
  (match loadUser s sid with
   | Some _ => set_sessions (delete sid) (set_wsCount n s)
   | None => set_wsCount n s
   end,
   [SessionDebugf n "Open"; GoDiscardRequests; GoConnectStreams n; ConnWait;
    SessionDebugf n "Close"],
   Served).
Proof.
  intros Ht Hd Hf n. unfold handleWS. rewrite Ht, Hd. simpl.
  rewrite Hf. reflexivity.
Qed.

Lemma allowed_HasAccess (u : User) (r : Remote) :
  allowed u r <-> HasAccess u (remoteAddr r) = true.
Proof. unfold allowed. symmetry. apply HasAccess_spec. Qed.

Lemma forallb_allowed (u : User) (rs : list Remote) :
  forallb (fun r => HasAccess u (remoteAddr r)) rs = true <->
  List.Forall (allowed u) rs.
Proof.
  rewrite forallb_forall, List.Forall_forall.
  split; intros Hall r Hr; apply allowed_HasAccess; auto.
Qed.

Lemma authUser_Users (s : Server) (user sid pass : string) :
  Users (authUser s user sid pass).1 = Users s.
Proof.
  unfold authUser. case_decide; [reflexivity|].
  destruct (Users s !! user) as [u|]; [|reflexivity].
  destruct (negb _); reflexivity.
Qed.

Lemma handleWS_Users (s : Server) (hs : Handshake) :
  Users (handleWS s hs).1.1 = Users s.
Proof.
  unfold handleWS. destruct hs as [err|sid [r|]]; try reflexivity.
  destruct (negb _); [reflexivity|].
  destruct (DecodeConfig _) as [c|]; [|reflexivity].
  destruct (from_option _ _ _); [reflexivity|].
  destruct (loadUser s sid); reflexivity.
Qed.

Lemma authUser_anonymous (s : Server) (user sid pass : string) :
  size (Users s) = 0%nat -> authUser s user sid pass = (s, None).
Proof. intros Hz. unfold authUser. case_decide; [reflexivity | lia]. Qed.

(** Without users, [handleWS] neither reads nor writes [sessions]: it
    commutes with any replacement of the map. *)
Lemma handleWS_anonymous (s : Server) (hs : Handshake)
    (m : gmap string User) :
  size (Users s) = 0%nat ->
  handleWS (set_sessions (fun _ => m) s) hs =
  (set_sessions (fun _ => m) (handleWS s hs).1.1,
   (handleWS s hs).1.2, (handleWS s hs).2).
Proof.
  intros Hz. unfold handleWS.
  destruct hs as [err|sid [r|]]; try reflexivity.
  rewrite !loadUser_anonymous by exact Hz. simpl.
  destruct (negb _); [reflexivity|].
  destruct (DecodeConfig _) as [c|]; reflexivity.
Qed.

Lemma handleWS_anonymous_sessions (s : Server) (hs : Handshake) :
  size (Users s) = 0%nat -> sessions (handleWS s hs).1.1 = sessions s.
Proof.
  intros Hz. unfold handleWS.
  destruct hs as [err|sid [r|]]; try reflexivity.
  rewrite loadUser_anonymous by exact Hz. simpl.
  destruct (negb _); [reflexivity|].
  destruct (DecodeConfig _) as [c|]; reflexivity.
Qed.

Lemma runOp_anonymous (s : Server) (op : Op) :
  size (Users s) = 0%nat ->
  sessions (runOp s op) = sessions s /\ Users (runOp s op) = Users s.
Proof.
  intros Hz. destruct op as [user sid pass|hs]; simpl.
  - rewrite authUser_anonymous by exact Hz. auto.
  - split; [now apply handleWS_anonymous_sessions | apply handleWS_Users].
Qed.

Lemma runOps_anonymous (ops : list Op) (s : Server) :
  size (Users s) = 0%nat ->
  sessions (runOps s ops) = sessions s /\ Users (runOps s ops) = Users s.
Proof.
  revert s. induction ops as [|op ops IH]; intros s Hz; [auto|].
  unfold runOps. simpl. fold (runOps (runOp s op) ops).
  destruct (runOp_anonymous s op Hz) as [Hs Hu].
  destruct (IH (runOp s op)) as [Hs' Hu']; [now rewrite Hu|].
  rewrite Hs', Hu'. auto.
Qed.

(** C1: for a session that has a user, negotiation succeeds exactly when
    every rule's remote address matches a pattern of the user's
    allow-list; when it fails the reply is a rejection whose message holds
    the address of the first rule that matches none, and the connection is
    closed.  A session without a user always succeeds. *)
Theorem negotiation_follows_allow_list (s : Server) (sid : string)
    (r : Request) (c : Config) :
  ReqType r = "config"%string ->
  DecodeConfig (Payload r) = Some c ->
  let out := handleWS s (HandshakeOK sid (Some r)) in
  (forall u, loadUser s sid = Some u ->
     (out.2 = Served <-> List.Forall (allowed u) (Remotes c)) /\
     (out.2 <> Served ->
      exists before rule after,
        Remotes c = before ++ rule :: after /\
        List.Forall (allowed u) before /\
        ~ allowed u rule /\
        out = (s,
               [Reply false
                  (Errorf (logger s)
                     ("access to '" +:+ remoteAddr rule +:+ "' denied"));
                ConnClose],
               Rejected) /\
        occurs_in (remoteAddr rule)
          (Errorf (logger s)
             ("access to '" +:+ remoteAddr rule +:+ "' denied")))) /\
  (loadUser s sid = None -> out.2 = Served).
Proof.
  intros Ht Hd out. split.
  - intros u Hu.
    destruct (firstDenied u (Remotes c)) as [addr|] eqn:Hf.
    + assert (Hout : out = (s,
          [Reply false
             (Errorf (logger s) ("access to '" +:+ addr +:+ "' denied"));
           ConnClose], Rejected))
        by (subst out; eapply handleWS_denied; eauto).
      destruct (firstDenied_Some _ _ _ Hf)
        as (before & rule & after & Hrs & Hb & Hr & ->).
      split.
      * rewrite Hout. simpl. split; [discriminate|].
        intros Hall. exfalso.
        apply forallb_allowed, firstDenied_None in Hall. congruence.
      * intros _. exists before, rule, after.
        repeat split; try assumption.
        -- now apply forallb_allowed.
        -- rewrite allowed_HasAccess. congruence.
        -- apply occurs_in_Errorf.
    + assert (Hout : out.2 = Served).
      { subst out. rewrite (handleWS_served s sid r c Ht Hd); [reflexivity|].
        rewrite Hu. exact Hf. }
      split.
      * split; [|intros _; exact Hout].
        intros _. now apply forallb_allowed, firstDenied_None.
      * intros Hne. contradiction.
  - intros Hu. subst out.
    rewrite (handleWS_served s sid r c Ht Hd); [reflexivity|].
    now rewrite Hu.
Qed.

(** C2: on the path where the config request has the right type, decodes
    and passes the access check, [handleWS] goes to its serving phase
    ([go ssh.DiscardRequests], [go chshare.ConnectStreams]) and nothing
    is sent on the config request: the events hold no [Reply]. *)
Theorem accepted_config_gets_no_reply (s : Server) (sid : string)
    (r : Request) (c : Config) :
  ReqType r = "config"%string ->
  DecodeConfig (Payload r) = Some c ->
  from_option (fun u => firstDenied u (Remotes c)) None (loadUser s sid)
    = None ->
  let out := handleWS s (HandshakeOK sid (Some r)) in
  let n := wrap_int (wsCount s + 1) in
  out.1.2 = [SessionDebugf n "Open"; GoDiscardRequests; GoConnectStreams n;
             ConnWait; SessionDebugf n "Close"] /\
  out.2 = Served /\
  forall ok payload, ~ In (Reply ok payload) out.1.2.
Proof.
  intros Ht Hd Hf out n. subst out.
  rewrite (handleWS_served s sid r c Ht Hd Hf). simpl.
  repeat split. intros ok payload Hin.
  repeat (destruct Hin as [Hin|Hin]; [discriminate|]). exact Hin.
Qed.

(** C3: [authUser] allows every connection when there are no users;
    otherwise it fails exactly when the identity is not in the user table
    or the secret is not that user's password, and when it succeeds the
    session store maps the session id to that user. *)
Theorem authUser_contract (s : Server) (identity sid secret : string) :
  let out := authUser s identity sid secret in
  (size (Users s) = 0%nat -> out = (s, None)) /\
  (size (Users s) <> 0%nat ->
   (out.2 <> None <->
    Users s !! identity = None \/
    exists u, Users s !! identity = Some u /\ Pass u <> secret) /\
   (out.2 = None ->
    exists u, Users s !! identity = Some u /\ Pass u = secret /\
              sessions out.1 !! sid = Some u)).
Proof.
  intros out. split.
  - apply authUser_anonymous.
  - intros Hz. subst out. unfold authUser.
    case_decide as Hsz; [contradiction|].
    destruct (Users s !! identity) as [u|] eqn:Hu; simpl.
    + destruct (String.eqb_spec (Pass u) secret) as [Hp|Hp]; simpl.
      * split.
        -- split; [congruence|].
           intros [Hn|(u' & Hu' & Hp')]; [discriminate|].
           injection Hu' as <-. contradiction.
        -- intros _. exists u. repeat split; [exact Hp|].
           apply lookup_insert_eq.
      * split; [|discriminate].
        split; [|discriminate]. intros _. right. exists u. auto.
    + split; [|discriminate].
      split; [|discriminate]. intros _. now left.
Qed.

(** C4: when the first request is not of type "config", or its payload
    does not decode, [handleWS] replies with a rejection carrying an
    error message, closes the connection and returns; the dispatcher
    ([chshare.ConnectStreams]) is never started. *)
Theorem bad_config_is_rejected (s : Server) (sid : string) (r : Request) :
  ReqType r <> "config"%string \/ DecodeConfig (Payload r) = None ->
  let out := handleWS s (HandshakeOK sid (Some r)) in
  (exists msg, out = (s, [Reply false msg; ConnClose], Rejected)) /\
  (forall id, ~ In (GoConnectStreams id) out.1.2).
Proof.
  intros Hbad out.
  assert (Hout : exists msg, out = (s, [Reply false msg; ConnClose], Rejected)).
  { destruct (String.eqb_spec (ReqType r) "config") as [Ht|Ht].
    - destruct Hbad as [Hbad|Hbad]; [contradiction|].
      eexists. subst out. now apply handleWS_invalid.
    - eexists. subst out. now apply handleWS_wrong_type. }
  split; [exact Hout|].
  destruct Hout as [msg ->]. simpl. intros id [Hin|[Hin|[]]]; discriminate.
Qed.

(** C10: with an empty user table the session store is out of play:
    [authUser] returns success and the same server, [handleWS] finds no
    user, its result does not depend on what the store holds and it
    leaves the store as it is, so the store is unchanged, and stays
    empty, along any sequence of authentications and sessions. *)
Theorem no_users_no_sessions (s : Server) :
  size (Users s) = 0%nat ->
  (forall user sid pass, authUser s user sid pass = (s, None)) /\
  (forall sid, loadUser s sid = None) /\
  (forall hs m,
     handleWS (set_sessions (fun _ => m) s) hs =
     (set_sessions (fun _ => m) (handleWS s hs).1.1,
      (handleWS s hs).1.2, (handleWS s hs).2)) /\
  (forall hs, sessions (handleWS s hs).1.1 = sessions s) /\
  (forall ops, sessions (runOps s ops) = sessions s) /\
  (sessions s = ∅ -> forall ops, sessions (runOps s ops) = ∅).
Proof.
  intros Hz. repeat split.
  - intros. now apply authUser_anonymous.
  - intros. now apply loadUser_anonymous.
  - intros. now apply handleWS_anonymous.
  - intros. now apply handleWS_anonymous_sessions.
  - intros. now apply runOps_anonymous.
  - intros He ops. rewrite <- He. now apply runOps_anonymous.
Qed.

End coordinator.

(** ** The channel dispatcher *)

Section dispatcher.

Lemma handleSSHChannels_app (t : Tunnel) (before after : list NewChannel) :
  handleSSHChannels t (before ++ after) =
  ((handleSSHChannels (handleSSHChannels t before).1 after).1,
   (handleSSHChannels t before).2 ++
   (handleSSHChannels (handleSSHChannels t before).1 after).2).
Proof.
  revert t. induction before as [|ch before IH]; intros t; simpl.
  - now destruct (handleSSHChannels t after).
  - destruct (handleSSHChannel t ch) as [t1 evs1]. rewrite IH.
    destruct (handleSSHChannels t1 before) as [t2 evs2]. simpl.
    now rewrite app_assoc.
Qed.

Lemma handleSSHChannels_cons (t : Tunnel) (ch : NewChannel)
    (after : list NewChannel) :
  handleSSHChannels t (ch :: after) =
  ((handleSSHChannels (handleSSHChannel t ch).1 after).1,
   (handleSSHChannel t ch).2 ++
   (handleSSHChannels (handleSSHChannel t ch).1 after).2).
Proof.
  simpl. destruct (handleSSHChannel t ch) as [t1 evs1]. simpl.
  now destruct (handleSSHChannels t1 after).
Qed.

(** A handler that runs alone is [handleSSHChannel]: its seven steps give
    the same tunnel and the same events. *)
Lemma runChannel_handleSSHChannel (t : Tunnel) (ch : NewChannel) :
  runChannel 7 t ch AtStart =
  ((handleSSHChannel t ch).1, (handleSSHChannel t ch).2, AtReturn).
Proof.
  unfold handleSSHChannel. simpl.
  destruct (String.eqb (ExtraData ch) "socks" &&
            bool_decide (socksServer t = None)); [reflexivity|].
  destruct (AcceptErr ch) as [err|]; [reflexivity|].
  simpl. destruct (protocolHandler (total (connStats t) + 1) ch) as [evs e].
  simpl. reflexivity.
Qed.

Lemma handleSSHChannel_socksServer (t : Tunnel) (ch : NewChannel) :
  socksServer (handleSSHChannel t ch).1 = socksServer t.
Proof.
  unfold handleSSHChannel.
  destruct (_ && _); [reflexivity|].
  destruct (AcceptErr ch); [reflexivity|]. simpl.
  now destruct (protocolHandler _ ch).
Qed.

Lemma handleSSHChannel_rejects_socks (t : Tunnel) (ch : NewChannel) :
  ExtraData ch = "socks"%string ->
  socksServer t = None ->
  handleSSHChannel t ch =
  (t, [TDebugf "Denied socks request, please enable socks";
       ChReject Prohibited "SOCKS5 is not enabled"]).
Proof.
  intros Hs Hn. unfold handleSSHChannel. rewrite Hs, Hn. reflexivity.
Qed.

Lemma protocolHandler_tcp (id : Z) (ch : NewChannel) :
  ExtraData ch <> "socks"%string ->
  ExtraData ch <> "udp"%string ->
  protocolHandler id ch = handleTCP id ch (ExtraData ch).
Proof.
  intros Hs Hu. unfold protocolHandler.
  destruct (String.eqb_spec (ExtraData ch) "socks"); [contradiction|].
  destruct (String.eqb_spec (ExtraData ch) "udp"); [contradiction|].
  reflexivity.
Qed.

(** An accepted channel: the counters move around the protocol handler
    and come back. *)
Lemma handleSSHChannel_accepted (t : Tunnel) (ch : NewChannel) :
  (ExtraData ch = "socks"%string -> socksServer t <> None) ->
  AcceptErr ch = None ->
  let id := total (connStats t) + 1 in
  let busy := mkConnStats (total (connStats t) + 1) (open (connStats t) + 1) in
  let idle := mkConnStats (total (connStats t) + 1) (open (connStats t)) in
  handleSSHChannel t ch =
  (set_connStats idle t,
   [ChAccept; TGoDiscardRequests; LogOpen id busy] ++
   (protocolHandler id ch).1 ++
   [LogClose id idle (closeError (protocolHandler id ch).2); StreamClose]).
Proof.
  intros Hs Ha id busy idle. unfold handleSSHChannel. rewrite Ha.
  destruct (String.eqb_spec (ExtraData ch) "socks") as [E|E]; simpl.
  - destruct (socksServer t) as [srv|] eqn:Hsrv; [|now destruct (Hs E)].
    simpl. fold id. destruct (protocolHandler id ch) as [evs e]. simpl.
    unfold ConnStats_Close, ConnStats_Open. simpl. subst idle busy.
    repeat f_equal; lia.
  - fold id. destruct (protocolHandler id ch) as [evs e]. simpl.
    unfold ConnStats_Close, ConnStats_Open. simpl. subst idle busy.
    repeat f_equal; lia.
Qed.

(** What one step of a handler does to the live count. *)
Lemma stepChannel_open (t : Tunnel) (ch : NewChannel) (pc : Pc) :
  let '(t', _, pc') := stepChannel t ch pc in
  open (connStats t') =
  open (connStats t) + (if running pc' then 1 else 0)
                     - (if running pc then 1 else 0).
Proof.
  destruct pc; simpl; try lia.
  - destruct (_ && _); simpl; [lia|].
    destruct (AcceptErr ch); simpl; lia.
  - destruct (protocolHandler id0 ch). simpl. lia.
Qed.

Lemma countRunning_app (hs hs' : list (NewChannel * Pc)) :
  countRunning (hs ++ hs') = countRunning hs + countRunning hs'.
Proof.
  induction hs as [|[ch pc] hs IH]; simpl; [reflexivity|]. rewrite IH. lia.
Qed.

Lemma countRunning_insert (hs : list (NewChannel * Pc)) (i : nat)
    (ch : NewChannel) (pc pc' : Pc) :
  hs !! i = Some (ch, pc) ->
  countRunning (<[i := (ch, pc')]> hs) =
  countRunning hs + (if running pc' then 1 else 0)
                  - (if running pc then 1 else 0).
Proof.
  revert i. induction hs as [|[ch0 pc0] hs IH]; intros i Hi.
  - discriminate.
  - destruct i as [|i]; simpl in *.
    + injection Hi as -> ->. lia.
    + rewrite (IH i Hi). lia.
Qed.

Lemma dispatch_live (d d' : Dispatcher) :
  dispatch d d' ->
  open (connStats (tunnel d')) - live d' =
  open (connStats (tunnel d)) - live d.
Proof.
  intros Hstep. destruct Hstep as [d ch|d i ch pc t' evs pc' Hi Hpc Hs].
  - unfold live. simpl. rewrite countRunning_app. simpl. lia.
  - unfold live. simpl. rewrite (countRunning_insert _ _ _ _ _ Hi).
    pose proof (stepChannel_open (tunnel d) ch pc) as Ho.
    rewrite Hs in Ho. lia.
Qed.

Lemma dispatch_rtc_live (d d' : Dispatcher) :
  rtc dispatch d d' ->
  open (connStats (tunnel d')) - live d' =
  open (connStats (tunnel d)) - live d.
Proof.
  induction 1 as [d|d d1 d2 Hstep _ IH]; [reflexivity|].
  rewrite IH. now apply dispatch_live.
Qed.

Lemma handleSSHChannels_socksServer (t : Tunnel) (chans : list NewChannel) :
  socksServer (handleSSHChannels t chans).1 = socksServer t.
Proof.
  revert t. induction chans as [|ch chans IH]; intros t; [reflexivity|].
  rewrite handleSSHChannels_cons. simpl. rewrite IH.
  apply handleSSHChannel_socksServer.
Qed.

(** The dispatcher goes on after a channel: what comes after [ch] is
    handled from the tunnel that [ch]'s handler left. *)
Lemma handleSSHChannels_around (t : Tunnel) (before after : list NewChannel)
    (ch : NewChannel) :
  let d1 := handleSSHChannels t before in
  let d := handleSSHChannel d1.1 ch in
  let d2 := handleSSHChannels d.1 after in
  handleSSHChannels t (before ++ ch :: after) = (d2.1, d1.2 ++ d.2 ++ d2.2).
Proof.
  intros d1 d d2. rewrite handleSSHChannels_app, handleSSHChannels_cons.
  reflexivity.
Qed.

(** C6: a channel tagged "socks" that reaches a tunnel with no SOCKS
    server is rejected with reason [Prohibited] and the message "SOCKS5 is
    not enabled"; it is never accepted, the tunnel is left as it was, and
    the channels before and after it are handled as if it had not come. *)
Theorem socks_channel_is_prohibited (t : Tunnel) (ch : NewChannel) :
  ExtraData ch = "socks"%string ->
  socksServer t = None ->
  let denied := [TDebugf "Denied socks request, please enable socks";
                 ChReject Prohibited "SOCKS5 is not enabled"] in
  handleSSHChannel t ch = (t, denied) /\
  ~ In ChAccept (handleSSHChannel t ch).2 /\
  (forall before after,
     let d1 := handleSSHChannels t before in
     let d2 := handleSSHChannels d1.1 after in
     handleSSHChannels t (before ++ ch :: after) =
     (d2.1, d1.2 ++ denied ++ d2.2)) /\
  (forall d i,
     tunnel d = t ->
     handlers d !! i = Some (ch, AtStart) ->
     dispatch d
       (mkDispatcher t (<[i := (ch, AtReturn)]> (handlers d))
          (trace d ++ denied))).
Proof.
  intros Hs Hn denied.
  pose proof (handleSSHChannel_rejects_socks t ch Hs Hn) as Hrej.
  split; [exact Hrej|]. split; [|split].
  - rewrite Hrej. simpl. intros [Hin|[Hin|[]]]; discriminate.
  - intros before after d1 d2.
    rewrite handleSSHChannels_around. fold d1.
    assert (Hn1 : socksServer d1.1 = None)
      by (subst d1; now rewrite handleSSHChannels_socksServer).
    rewrite (handleSSHChannel_rejects_socks d1.1 ch Hs Hn1). reflexivity.
  - intros d i Ht Hi. apply (dispatch_step d i ch AtStart); [exact Hi|discriminate|].
    rewrite Ht. simpl. rewrite Hs, Hn. reflexivity.
Qed.

(** C7 as amended: a channel whose tag is neither "socks" nor "udp" is
    accepted and, the accept having succeeded, [net.Dial("tcp", tag)] is
    called.  When the dial fails the closing log line carries the error
    unless its text ends in "EOF"; either way the line is written, the
    accepted stream is closed, the handler returns and the channels after
    it are handled. *)
Theorem tcp_channel_dial (t : Tunnel) (ch : NewChannel) :
  ExtraData ch <> "socks"%string ->
  ExtraData ch <> "udp"%string ->
  AcceptErr ch = None ->
  let id := total (connStats t) + 1 in
  let busy := mkConnStats (total (connStats t) + 1) (open (connStats t) + 1) in
  let idle := mkConnStats (total (connStats t) + 1) (open (connStats t)) in
  let evs :=
    [ChAccept; TGoDiscardRequests; LogOpen id busy;
     NetDial "tcp" (ExtraData ch)] ++
    match DialErr ch with
    | Some e =>
        [LogClose id idle (if HasSuffix e "EOF" then None else Some e)]
    | None =>
        [TPipe; LogSent id (PipeSent ch) (PipeReceived ch);
         LogClose id idle None]
    end ++ [StreamClose] in
  handleSSHChannel t ch = (set_connStats idle t, evs) /\
  runChannel 7 t ch AtStart = (set_connStats idle t, evs, AtReturn) /\
  (forall after,
     handleSSHChannels t (ch :: after) =
     ((handleSSHChannels (set_connStats idle t) after).1,
      evs ++ (handleSSHChannels (set_connStats idle t) after).2)).
Proof.
  intros Hs Hu Ha id busy idle evs.
  assert (Hh : handleSSHChannel t ch = (set_connStats idle t, evs)).
  { rewrite handleSSHChannel_accepted by (intros; congruence || assumption).
    fold id. rewrite (protocolHandler_tcp id ch Hs Hu).
    subst evs. unfold handleTCP.
    destruct (DialErr ch) as [e|]; simpl; [|reflexivity].
    now destruct (HasSuffix e "EOF"). }
  split; [exact Hh|]. split.
  - rewrite runChannel_handleSSHChannel, Hh. reflexivity.
  - intros after. rewrite handleSSHChannels_cons, Hh. reflexivity.
Qed.

(** C8: for a channel that is accepted, [total] and [open] are one higher
    when the protocol handler starts (the "Open" line shows them) and
    [open] is back, once, after it whatever error it returned; and in
    every interleaving of the handlers of a session [open] is the number
    of handlers between their [connStats.Open()] and [connStats.Close()]. *)
Theorem open_counter_is_live_handlers (t : Tunnel) (ch : NewChannel)
    (d : Dispatcher) :
  ((ExtraData ch = "socks"%string -> socksServer t <> None) ->
   AcceptErr ch = None ->
   let id := total (connStats t) + 1 in
   let busy :=
     mkConnStats (total (connStats t) + 1) (open (connStats t) + 1) in
   let idle := mkConnStats (total (connStats t) + 1) (open (connStats t)) in
   handleSSHChannel t ch =
   (set_connStats idle t,
    [ChAccept; TGoDiscardRequests; LogOpen id busy] ++
    (protocolHandler id ch).1 ++
    [LogClose id idle (closeError (protocolHandler id ch).2); StreamClose])) /\
  (open (connStats t) = 0 ->
   rtc dispatch (mkDispatcher t [] []) d ->
   open (connStats (tunnel d)) = live d).
Proof.
  split.
  - apply handleSSHChannel_accepted.
  - intros Hz Hrun. apply dispatch_rtc_live in Hrun.
    unfold live in *. simpl in Hrun. lia.
Qed.

End dispatcher.

(** *** The coordinator on the scenarios of the specification *)

Section coordinator_scenarios.
#[local] Existing Instance scenario.exact.

Lemma negotiation_follows_allow_list_witness :
  let s := scenario.bobIn in
  let r := mkRequest "config" "example.com+internal" in
  let c := scenario.twoRules in
  let out := handleWS s (HandshakeOK "s1" (Some r)) in
  ReqType r = "config"%string /\
  DecodeConfig (Payload r) = Some c /\
  (forall u, loadUser s "s1" = Some u ->
     (out.2 = Served <-> List.Forall (allowed u) (Remotes c)) /\
     (out.2 <> Served ->
      exists before rule after,
        Remotes c = before ++ rule :: after /\
        List.Forall (allowed u) before /\
        ~ allowed u rule /\
        out = (s,
               [Reply false
                  (Errorf (logger s)
                     ("access to '" +:+ remoteAddr rule +:+ "' denied"));
                ConnClose],
               Rejected) /\
        occurs_in (remoteAddr rule)
          (Errorf (logger s)
             ("access to '" +:+ remoteAddr rule +:+ "' denied")))) /\
  (loadUser s "s1" = None -> out.2 = Served).
Proof.
  intros s r c out. split; [reflexivity|]. split; [reflexivity|].
  apply (negotiation_follows_allow_list s "s1" r c); reflexivity.
Defined.

Example bob_is_rejected_citing_internal :
  handleWS scenario.bobIn
    (HandshakeOK "s1" (Some (mkRequest "config" "example.com+internal"))) =
  (scenario.bobIn,
   [Reply false "server: access to 'internal:22' denied"; ConnClose],
   Rejected).
Proof. vm_compute. reflexivity. Qed.

Lemma accepted_config_gets_no_reply_witness :
  let s := scenario.anonymous in
  let r := mkRequest "config" "example" in
  let c := mkConfig [scenario.rule "example" "80"] in
  let out := handleWS s (HandshakeOK "s1" (Some r)) in
  let n := wrap_int (wsCount s + 1) in
  ReqType r = "config"%string /\
  DecodeConfig (Payload r) = Some c /\
  from_option (fun u => firstDenied u (Remotes c)) None (loadUser s "s1")
    = None /\
  out.1.2 = [SessionDebugf n "Open"; GoDiscardRequests; GoConnectStreams n;
             ConnWait; SessionDebugf n "Close"] /\
  out.2 = Served /\
  forall ok payload, ~ In (Reply ok payload) out.1.2.
Proof.
  intros s r c out n. split; [reflexivity|]. split; [reflexivity|].
  split; [reflexivity|].
  apply (accepted_config_gets_no_reply s "s1" r c); reflexivity.
Defined.

Example anonymous_config_trace :
  (handleWS scenario.anonymous
     (HandshakeOK "s1" (Some (mkRequest "config" "example")))).1.2 =
  [SessionDebugf 1 "Open"; GoDiscardRequests; GoConnectStreams 1; ConnWait;
   SessionDebugf 1 "Close"].
Proof. vm_compute. reflexivity. Qed.

Lemma authUser_contract_witness :
  let s := scenario.withBob in
  let out := authUser s "bob" "s1" "secret" in
  size (Users s) <> 0%nat /\
  out.2 = None /\
  ((size (Users s) = 0%nat -> out = (s, None)) /\
   (size (Users s) <> 0%nat ->
    (out.2 <> None <->
     Users s !! "bob"%string = None \/
     exists u, Users s !! "bob"%string = Some u /\
               Pass u <> "secret"%string) /\
    (out.2 = None ->
     exists u, Users s !! "bob"%string = Some u /\
               Pass u = "secret"%string /\
               sessions out.1 !! "s1"%string = Some u))).
Proof.
  intros s out. split; [vm_compute; discriminate|]. split; [reflexivity|].
  apply (authUser_contract s "bob" "s1" "secret").
Defined.

Lemma bad_config_is_rejected_witness :
  let s := scenario.anonymous in
  let r := mkRequest "config" "not a config" in
  let out := handleWS s (HandshakeOK "s1" (Some r)) in
  (ReqType r <> "config"%string \/ DecodeConfig (Payload r) = None) /\
  (exists msg, out = (s, [Reply false msg; ConnClose], Rejected)) /\
  (forall id, ~ In (GoConnectStreams id) out.1.2).
Proof.
  intros s r out.
  assert (Hbad : ReqType r <> "config"%string \/
                 DecodeConfig (Payload r) = None) by (right; reflexivity).
  split; [exact Hbad|].
  exact (bad_config_is_rejected s "s1" r Hbad).
Defined.

Lemma no_users_no_sessions_witness :
  let s := scenario.anonymous in
  size (Users s) = 0%nat /\
  (forall user sid pass, authUser s user sid pass = (s, None)) /\
  (forall sid, loadUser s sid = None) /\
  (forall hs m,
     handleWS (set_sessions (fun _ => m) s) hs =
     (set_sessions (fun _ => m) (handleWS s hs).1.1,
      (handleWS s hs).1.2, (handleWS s hs).2)) /\
  (forall hs, sessions (handleWS s hs).1.1 = sessions s) /\
  (forall ops, sessions (runOps s ops) = sessions s) /\
  (sessions s = ∅ -> forall ops, sessions (runOps s ops) = ∅).
Proof.
  intros s. split; [reflexivity|].
  apply (no_users_no_sessions s). reflexivity.
Defined.

End coordinator_scenarios.

(** *** The dispatcher on concrete channels *)

Lemma socks_channel_is_prohibited_witness :
  let t := scenario.plain in
  let ch := scenario.socksChannel in
  let denied := [TDebugf "Denied socks request, please enable socks";
                 ChReject Prohibited "SOCKS5 is not enabled"] in
  ExtraData ch = "socks"%string /\
  socksServer t = None /\
  handleSSHChannel t ch = (t, denied) /\
  ~ In ChAccept (handleSSHChannel t ch).2 /\
  (forall before after,
     let d1 := handleSSHChannels t before in
     let d2 := handleSSHChannels d1.1 after in
     handleSSHChannels t (before ++ ch :: after) =
     (d2.1, d1.2 ++ denied ++ d2.2)) /\
  (forall d i,
     tunnel d = t ->
     handlers d !! i = Some (ch, AtStart) ->
     dispatch d
       (mkDispatcher t (<[i := (ch, AtReturn)]> (handlers d))
          (trace d ++ denied))).
Proof.
  intros t ch denied. split; [reflexivity|]. split; [reflexivity|].
  apply (socks_channel_is_prohibited t ch); reflexivity.
Defined.

Example socks_then_web :
  handleSSHChannels scenario.plain
    [scenario.socksChannel; scenario.webChannel] =
  (mkTunnel (mkLogger "tunnel: ") None (mkConnStats 1 0),
   [TDebugf "Denied socks request, please enable socks";
    ChReject Prohibited "SOCKS5 is not enabled";
    ChAccept; TGoDiscardRequests; LogOpen 1 (mkConnStats 1 1);
    NetDial "tcp" "web:80";
    LogClose 1 (mkConnStats 1 0) (Some scenario.refusedError);
    StreamClose]).
Proof. vm_compute. reflexivity. Qed.

(** C7 as first stated fails: the dial of "db:5432" fails with an error
    whose text ends in "EOF", and no log line carries that error. *)
Lemma dial_error_ending_in_EOF_is_not_logged :
  let t := scenario.plain in
  let ch := scenario.dbChannel in
  let e := scenario.lookupError in
  (ExtraData ch <> "socks"%string /\ ExtraData ch <> "udp"%string) /\
  AcceptErr ch = None /\
  DialErr ch = Some e /\
  (handleSSHChannel t ch).2 =
    [ChAccept; TGoDiscardRequests; LogOpen 1 (mkConnStats 1 1);
     NetDial "tcp" "db:5432"; LogClose 1 (mkConnStats 1 0) None;
     StreamClose] /\
  ~ (exists id stats, In (LogClose id stats (Some e)) (handleSSHChannel t ch).2).
Proof.
  intros t ch e.
  assert (Hevs : (handleSSHChannel t ch).2 =
    [ChAccept; TGoDiscardRequests; LogOpen 1 (mkConnStats 1 1);
     NetDial "tcp" "db:5432"; LogClose 1 (mkConnStats 1 0) None;
     StreamClose]) by (vm_compute; reflexivity).
  split; [split; discriminate|]. split; [reflexivity|]. split; [reflexivity|].
  split; [exact Hevs|].
  rewrite Hevs. intros (id & stats & Hin). simpl in Hin.
  repeat (destruct Hin as [Hin|Hin]; [discriminate|]). exact Hin.
Qed.

Lemma tcp_channel_dial_witness :
  let t := scenario.plain in
  let ch := scenario.webChannel in
  let id := total (connStats t) + 1 in
  let busy := mkConnStats (total (connStats t) + 1) (open (connStats t) + 1) in
  let idle := mkConnStats (total (connStats t) + 1) (open (connStats t)) in
  let evs :=
    [ChAccept; TGoDiscardRequests; LogOpen id busy;
     NetDial "tcp" (ExtraData ch)] ++
    match DialErr ch with
    | Some e =>
        [LogClose id idle (if HasSuffix e "EOF" then None else Some e)]
    | None =>
        [TPipe; LogSent id (PipeSent ch) (PipeReceived ch);
         LogClose id idle None]
    end ++ [StreamClose] in
  ExtraData ch <> "socks"%string /\
  ExtraData ch <> "udp"%string /\
  AcceptErr ch = None /\
  handleSSHChannel t ch = (set_connStats idle t, evs) /\
  runChannel 7 t ch AtStart = (set_connStats idle t, evs, AtReturn) /\
  (forall after,
     handleSSHChannels t (ch :: after) =
     ((handleSSHChannels (set_connStats idle t) after).1,
      evs ++ (handleSSHChannels (set_connStats idle t) after).2)).
Proof.
  intros t ch id busy idle evs.
  split; [discriminate|]. split; [discriminate|]. split; [reflexivity|].
  apply (tcp_channel_dial t ch); [discriminate | discriminate | reflexivity].
Defined.

(** [webServing] is reached from [plain]: the handler is started and takes
    three steps. *)
Lemma webServing_reached :
  rtc dispatch (mkDispatcher scenario.plain [] []) scenario.webServing.
Proof.
  eapply rtc_l; [apply (dispatch_go _ scenario.webChannel)|]. simpl.
  eapply rtc_l.
  { apply (dispatch_step _ 0%nat scenario.webChannel AtStart);
      [reflexivity | discriminate | reflexivity]. }
  simpl. eapply rtc_l.
  { apply (dispatch_step _ 0%nat scenario.webChannel AtNew);
      [reflexivity | discriminate | reflexivity]. }
  simpl. eapply rtc_l.
  { apply (dispatch_step _ 0%nat scenario.webChannel (AtOpen 1));
      [reflexivity | discriminate | reflexivity]. }
  simpl. apply rtc_refl.
Defined.

Lemma open_counter_is_live_handlers_witness :
  let t := scenario.plain in
  let ch := scenario.webChannel in
  let d := scenario.webServing in
  ((ExtraData ch = "socks"%string -> socksServer t <> None) /\
   AcceptErr ch = None /\
   open (connStats t) = 0 /\
   rtc dispatch (mkDispatcher t [] []) d) /\
  handleSSHChannel t ch =
    (mkTunnel (mkLogger "tunnel: ") None (mkConnStats 1 0),
     [ChAccept; TGoDiscardRequests; LogOpen 1 (mkConnStats 1 1);
      NetDial "tcp" "web:80";
      LogClose 1 (mkConnStats 1 0) (Some scenario.refusedError);
      StreamClose]) /\
  open (connStats (tunnel d)) = live d.
Proof.
  intros t ch d.
  assert (Hs : ExtraData ch = "socks"%string -> socksServer t <> None)
    by discriminate.
  assert (Ha : AcceptErr ch = None) by reflexivity.
  assert (Hz : open (connStats t) = 0) by reflexivity.
  pose proof webServing_reached as Hrun.
  destruct (open_counter_is_live_handlers t ch d) as [Hone Hall].
  split; [auto|]. split.
  - rewrite (Hone Hs Ha). reflexivity.
  - exact (Hall Hz Hrun).
Defined.

(** ** The proxy manager *)

Section proxy.
Context `{Collaborators}.

Lemma pipeRemote_no_connection (p : Proxy) (src : Src) :
  pipeRemote p src None =
  (set_count (wrap_int (count p + 1)) p,
   [ConnDebugf (wrap_int (count p + 1)) "Open";
    ConnDebugf (wrap_int (count p + 1)) "No remote connection";
    SrcClose src]).
Proof. reflexivity. Qed.

Lemma pipeRemote_remote (p : Proxy) (src : Src) (conn : option SSHConn) :
  remote (pipeRemote p src conn).1 = remote p.
Proof. reflexivity. Qed.

(** [runStdio] leaves its loop at the first round whose [select] finds
    the context done. *)
Lemma runStdio_returns (ssh : nat -> option SSHConn) (done : nat -> bool)
    (k : nat) :
  forall (i fuel : nat) (p : Proxy),
    done (i + k)%nat = true ->
    (forall j, (j < k)%nat -> done (i + j)%nat = false) ->
    (k < fuel)%nat ->
    exists p' evs, runStdio fuel p ssh done i = Some (p', evs).
Proof.
  induction k as [|k IH]; intros i fuel p Hd Hb Hf.
  - destruct fuel as [|fuel]; [lia|]. simpl.
    replace (i + 0)%nat with i in Hd by lia. rewrite Hd. eauto.
  - destruct fuel as [|fuel]; [lia|]. simpl.
    assert (Hi : done i = false).
    { specialize (Hb 0%nat). replace (i + 0)%nat with i in Hb by lia.
      apply Hb. lia. }
    rewrite Hi.
    destruct (IH (S i) fuel
                (set_count (wrap_int (count p + 1)) p)) as (p' & evs & Hr).
    + replace (S i + k)%nat with (i + S k)%nat by lia. exact Hd.
    + intros j Hj. replace (S i + j)%nat with (i + S j)%nat by lia.
      apply Hb. lia.
    + lia.
    + rewrite Hr. eauto.
Qed.

(** For a tcp or udp rule [Run] ends in one of its [return]s. *)
Lemma Run_tcp_udp (fuel : nat) (p : Proxy) (env : RunEnv) :
  Stdio (remote p) = false ->
  LocalProto (remote p) = "tcp"%string \/ LocalProto (remote p) = "udp"%string ->
  forall msg, (Run fuel p env).2 <> Panics msg.
Proof.
  intros Hs Hp msg. unfold Run. rewrite Hs.
  destruct Hp as [-> | ->]; simpl.
  - destruct (runTCP p (answers env) 0) as [[[p1 evs] err]|]; discriminate.
  - discriminate.
Qed.

(** C5: for a stdio rule, once the context is cancelled [runStdio]
    leaves its loop, and [Run], which does not return in that branch,
    goes on to [panic("should not get here")]. *)
Theorem stdio_Run_panics (p : Proxy) (env : RunEnv) (n fuel : nat) :
  Stdio (remote p) = true ->
  done env n = true ->
  (forall i, (i < n)%nat -> done env i = false) ->
  (n < fuel)%nat ->
  (exists p' evs, runStdio fuel p (ssh env) (done env) 0 = Some (p', evs)) /\
  (Run fuel p env).2 = Panics "should not get here".
Proof.
  intros Hs Hd Hb Hf.
  destruct (runStdio_returns (ssh env) (done env) n 0 fuel p) as (p' & evs & Hr);
    [exact Hd | exact Hb | exact Hf |].
  split; [eauto|]. unfold Run. rewrite Hs, Hr. reflexivity.
Qed.

(** C9: when [p.ssh()] gives no connection, [pipeRemote] logs it, closes
    the local connection and returns: no channel is opened, nothing is
    piped and nothing of the connection is kept, only the connection
    counter has moved. *)
Theorem pipeRemote_without_connection (p : Proxy) (src : Src) :
  let out := pipeRemote p src None in
  let cid := wrap_int (count p + 1) in
  out = (set_count cid p,
         [ConnDebugf cid "Open"; ConnDebugf cid "No remote connection";
          SrcClose src]) /\
  (forall name data, ~ In (OpenChannel name data) out.2) /\
  (forall src', ~ In (PPipe src') out.2) /\
  last out.2 = Some (SrcClose src).
Proof.
  intros out cid. subst out. rewrite pipeRemote_no_connection. fold cid.
  split; [reflexivity|]. simpl. repeat split.
  - intros name data Hin.
    repeat (destruct Hin as [Hin|Hin]; [discriminate|]). exact Hin.
  - intros src' Hin.
    repeat (destruct Hin as [Hin|Hin]; [discriminate|]). exact Hin.
Qed.

End proxy.

(** *** The proxy on concrete runs *)

Section proxy_scenarios.
#[local] Existing Instance scenario.exact.

Lemma stdio_Run_panics_witness :
  let p := scenario.stdioProxy in
  let env := scenario.cancelledInThird in
  Stdio (remote p) = true /\
  done env 2%nat = true /\
  (forall i, (i < 2)%nat -> done env i = false) /\
  (2 < 3)%nat /\
  (exists p' evs, runStdio 3 p (ssh env) (done env) 0 = Some (p', evs)) /\
  (Run 3 p env).2 = Panics "should not get here".
Proof.
  intros p env.
  assert (Hb : forall i, (i < 2)%nat -> done env i = false).
  { intros i Hi. simpl. destruct i as [|[|i]]; [reflexivity | reflexivity | lia]. }
  split; [reflexivity|]. split; [reflexivity|]. split; [exact Hb|].
  split; [lia|].
  apply (stdio_Run_panics p env 2 3); [reflexivity | reflexivity | exact Hb | lia].
Defined.

Example stdio_run_trace :
  Run 3 scenario.stdioProxy scenario.cancelledInThird =
  (mkProxy (mkLogger "proxy#1: ") 1 3
     (mkRemote EmptyString EmptyString EmptyString "example.com" "80" true),
   [ConnDebugf 1 "Open"; ConnDebugf 1 "No remote connection";
    SrcClose StdioSrc;
    ConnDebugf 2 "Open"; ConnDebugf 2 "No remote connection";
    SrcClose StdioSrc;
    ConnDebugf 3 "Open"; ConnDebugf 3 "No remote connection";
    SrcClose StdioSrc],
   Panics "should not get here").
Proof. vm_compute. reflexivity. Qed.

End proxy_scenarios.

(* ===================================================================== *)
(** * Part III: further properties of the code                            *)
(* ===================================================================== *)

(** An event that is none of those of a given list. *)
Ltac absent_event :=
  let Hin := fresh "Hin" in
  intros Hin; simpl in Hin;
  repeat (destruct Hin as [Hin|Hin]; [discriminate|]); destruct Hin.

(** ** [authUser] and [handleWS] together *)

Section sessions.
Context `{Collaborators}.

(** The four ways [handleWS] ends, with what each leaves behind. *)
Lemma handleWS_cases (s : Server) (hs : Handshake) :
  (exists err,
     hs = HandshakeFailed err /\
     handleWS s hs =
     (s, [Debugf ("Failed to handshake (" +:+ err +:+ ")")], HandshakeError)) \/
  (exists sid,
     hs = HandshakeOK sid None /\ handleWS s hs = (s, [], Panicked)) \/
  (exists sid r msg,
     hs = HandshakeOK sid (Some r) /\
     handleWS s hs = (s, [Reply false msg; ConnClose], Rejected)) \/
  (exists sid r c,
     hs = HandshakeOK sid (Some r) /\
     ReqType r = "config"%string /\
     DecodeConfig (Payload r) = Some c /\
     from_option (fun u => firstDenied u (Remotes c)) None (loadUser s sid)
       = None /\
     handleWS s hs =
     (match loadUser s sid with
      | Some _ =>
          set_sessions (delete sid) (set_wsCount (wrap_int (wsCount s + 1)) s)
      | None => set_wsCount (wrap_int (wsCount s + 1)) s
      end,
      [SessionDebugf (wrap_int (wsCount s + 1)) "Open"; GoDiscardRequests;
       GoConnectStreams (wrap_int (wsCount s + 1)); ConnWait;
       SessionDebugf (wrap_int (wsCount s + 1)) "Close"],
      Served)).
Proof.
  destruct hs as [err|sid [r|]].
  - left. eauto.
  - destruct (String.eqb_spec (ReqType r) "config") as [Ht|Ht].
    + destruct (DecodeConfig (Payload r)) as [c|] eqn:Hd.
      * destruct (from_option (fun u => firstDenied u (Remotes c)) None
                    (loadUser s sid)) as [addr|] eqn:Hf.
        -- right. right. left. exists sid, r. eexists. split; [reflexivity|].
           unfold handleWS. rewrite Ht, Hd. simpl. rewrite Hf. reflexivity.
        -- right. right. right. exists sid, r, c.
           repeat split; try assumption.
           exact (handleWS_served s sid r c Ht Hd Hf).
      * right. right. left. exists sid, r. eexists. split; [reflexivity|].
        now apply handleWS_invalid.
    + right. right. left. exists sid, r. eexists. split; [reflexivity|].
      now apply handleWS_wrong_type.
  - right. left. eauto.
Qed.

Lemma authUser_success (s : Server) (identity sid secret : string) (u : User) :
  size (Users s) <> 0%nat ->
  Users s !! identity = Some u ->
  Pass u = secret ->
  authUser s identity sid secret = (set_sessions <[sid := u]> s, None).
Proof.
  intros Hz Hu Hp. unfold authUser. case_decide; [contradiction|].
  rewrite Hu. destruct (String.eqb_spec (Pass u) secret); [reflexivity|].
  contradiction.
Qed.

Lemma loadUser_after_insert (s : Server) (sid : string) (u : User) :
  size (Users s) <> 0%nat ->
  loadUser (set_sessions <[sid := u]> s) sid = Some u.
Proof.
  intros Hz. unfold loadUser. simpl. case_decide; [|lia].
  apply lookup_insert_eq.
Qed.

(** [authUser] writes at most the entry of its own session id: a failure
    changes nothing at all, and a success changes neither the users, the
    counter, the logger nor the record of any other session. *)
Theorem authUser_frame (s : Server) (identity sid secret : string) :
  let out := authUser s identity sid secret in
  logger out.1 = logger s /\
  Users out.1 = Users s /\
  wsCount out.1 = wsCount s /\
  (out.2 <> None -> out.1 = s) /\
  (forall sid', sid' <> sid -> sessions out.1 !! sid' = sessions s !! sid').
Proof.
  intros out. subst out. unfold authUser.
  case_decide; [now repeat split|].
  destruct (Users s !! identity) as [u|]; [|now repeat split].
  destruct (negb _); [now repeat split|]. simpl.
  repeat split; [congruence|].
  intros sid' Hne. now apply lookup_insert_ne.
Qed.

(** After a successful [authUser] for [identity], the negotiation on the
    same session id is decided by the allow-list of the user stored under
    [identity]: the session is served exactly when [HasAccess] holds for
    the address of every rule, and is rejected otherwise. *)
Theorem authenticated_user_is_checked (s : Server)
    (identity sid secret : string) (u : User) (r : Request) (c : Config) :
  size (Users s) <> 0%nat ->
  Users s !! identity = Some u ->
  Pass u = secret ->
  ReqType r = "config"%string ->
  DecodeConfig (Payload r) = Some c ->
  let s1 := (authUser s identity sid secret).1 in
  let out := handleWS s1 (HandshakeOK sid (Some r)) in
  (out.2 = Served <->
   forallb (fun rule => HasAccess u (remoteAddr rule)) (Remotes c) = true) /\
  (out.2 <> Served -> out.2 = Rejected /\ out.1.1 = s1).
Proof.
  intros Hz Hu Hp Ht Hd s1 out.
  assert (Hs1 : s1 = set_sessions <[sid := u]> s)
    by (subst s1; now rewrite (authUser_success s identity sid secret u)).
  assert (Hl : loadUser s1 sid = Some u)
    by (rewrite Hs1; now apply loadUser_after_insert).
  destruct (firstDenied u (Remotes c)) as [addr|] eqn:Hf.
  - assert (Hout : out = (s1,
        [Reply false
           (Errorf (logger s1) ("access to '" +:+ addr +:+ "' denied"));
         ConnClose], Rejected))
      by (subst out; eapply handleWS_denied; eauto).
    rewrite Hout. simpl. split; [|auto].
    split; [discriminate|]. intros Hall.
    apply firstDenied_None in Hall. congruence.
  - assert (Hout : out.2 = Served).
    { subst out. rewrite (handleWS_served s1 sid r c Ht Hd); [reflexivity|].
      rewrite Hl. exact Hf. }
    split; [|congruence].
    split; [|auto]. intros _. now apply firstDenied_None.
Qed.

(** A session that authenticated and was served leaves no record: the
    store is the one before [authUser] without the session id, which is
    the store before [authUser] when the id was new. *)
Theorem served_session_record_is_removed (s : Server)
    (identity sid secret : string) (u : User) (r : Request) :
  size (Users s) <> 0%nat ->
  Users s !! identity = Some u ->
  Pass u = secret ->
  let s1 := (authUser s identity sid secret).1 in
  let out := handleWS s1 (HandshakeOK sid (Some r)) in
  out.2 = Served ->
  sessions s1 !! sid = Some u /\
  sessions out.1.1 = delete sid (sessions s) /\
  (sessions s !! sid = None -> sessions out.1.1 = sessions s).
Proof.
  intros Hz Hu Hp s1 out Hserved.
  assert (Hs1 : s1 = set_sessions <[sid := u]> s)
    by (subst s1; now rewrite (authUser_success s identity sid secret u)).
  assert (Hl : loadUser s1 sid = Some u)
    by (rewrite Hs1; now apply loadUser_after_insert).
  assert (Hdel : sessions out.1.1 = delete sid (sessions s)).
  { subst out.
    destruct (handleWS_cases s1 (HandshakeOK sid (Some r)))
      as [(err & Hhs & _)|[(sid0 & Hhs & _)|[(sid0 & r0 & msg & _ & Hout)
         |(sid0 & r0 & c & Hhs & _ & _ & _ & Hout)]]];
      try discriminate.
    - rewrite Hout in Hserved. discriminate.
    - injection Hhs as <- <-. rewrite Hout, Hl. simpl. rewrite Hs1. simpl.
      apply delete_insert_eq. }
  split; [rewrite Hs1; apply lookup_insert_eq|].
  split; [exact Hdel|].
  intros Hnone. rewrite Hdel. now apply delete_id.
Qed.

(** Only the served ending changes the server: after a failed handshake,
    a missing first request or a rejection the state is what it was, so a
    record that [authUser] wrote for the session is still in the store. *)
Theorem unserved_session_keeps_record (s : Server) (hs : Handshake) :
  (handleWS s hs).2 <> Served ->
  (handleWS s hs).1.1 = s /\
  (forall identity sid secret u,
     size (Users s) <> 0%nat ->
     Users s !! identity = Some u ->
     Pass u = secret ->
     let s1 := (authUser s identity sid secret).1 in
     (handleWS s1 hs).2 <> Served ->
     sessions (handleWS s1 hs).1.1 !! sid = Some u).
Proof.
  assert (Hframe : forall s0, (handleWS s0 hs).2 <> Served ->
                              (handleWS s0 hs).1.1 = s0).
  { intros s0 Hn.
    destruct (handleWS_cases s0 hs)
      as [(err & _ & Hout)|[(sid0 & _ & Hout)|[(sid0 & r0 & msg & _ & Hout)
         |(sid0 & r0 & c & _ & _ & _ & _ & Hout)]]];
      rewrite Hout in *; simpl in *; congruence. }
  intros Hn. split; [now apply Hframe|].
  intros identity sid secret u Hz Hu Hp s1 Hn1.
  rewrite (Hframe s1 Hn1). subst s1.
  rewrite (authUser_success s identity sid secret u Hz Hu Hp). simpl.
  apply lookup_insert_eq.
Qed.

End sessions.

(** ** The session counter and the shape of a session's events *)

Section counter.
Context `{Collaborators}.

Lemma wrap_int_range (z : Z) : - 2 ^ 63 <= wrap_int z < 2 ^ 63.
Proof.
  unfold wrap_int.
  pose proof (Z.mod_pos_bound (z + 2 ^ 63) (2 ^ 64) ltac:(lia)). lia.
Qed.

Lemma wrap_int_id (z : Z) : - 2 ^ 63 <= z < 2 ^ 63 -> wrap_int z = z.
Proof.
  intros Hz. unfold wrap_int. rewrite Z.mod_small by lia. lia.
Qed.

Lemma wrap_int_add (a b : Z) : wrap_int (wrap_int a + b) = wrap_int (a + b).
Proof.
  unfold wrap_int.
  replace ((a + 2 ^ 63) mod 2 ^ 64 - 2 ^ 63 + b + 2 ^ 63)
    with ((a + 2 ^ 63) mod 2 ^ 64 + b) by lia.
  rewrite Zplus_mod_idemp_l.
  replace (a + 2 ^ 63 + b) with (a + b + 2 ^ 63) by lia. reflexivity.
Qed.

Lemma authUser_wsCount (s : Server) (user sid pass : string) :
  wsCount (authUser s user sid pass).1 = wsCount s.
Proof.
  unfold authUser. case_decide; [reflexivity|].
  destruct (Users s !! user); [|reflexivity].
  now destruct (negb _).
Qed.

Lemma handleWS_wsCount (s : Server) (hs : Handshake) :
  wsCount (handleWS s hs).1.1 =
  match (handleWS s hs).2 with
  | Served => wrap_int (wsCount s + 1)
  | _ => wsCount s
  end.
Proof.
  destruct (handleWS_cases s hs)
    as [(err & _ & Hout)|[(sid0 & _ & Hout)|[(sid0 & r0 & msg & _ & Hout)
       |(sid0 & r0 & c & _ & _ & _ & _ & Hout)]]];
    rewrite Hout; simpl; try reflexivity.
  now destruct (loadUser s sid0).
Qed.

Lemma servedCount_cons (s : Server) (op : Op) (ops : list Op) :
  servedCount s (op :: ops) =
  servedCount s [op] + servedCount (runOp s op) ops.
Proof. simpl. lia. Qed.

Lemma servedCount_one (s : Server) (op : Op) : 0 <= servedCount s [op] <= 1.
Proof.
  simpl. destruct op as [user sid pass|hs]; [lia|].
  destruct ((handleWS s hs).2); lia.
Qed.

Lemma runOp_wsCount (s : Server) (op : Op) :
  wrap_int (wsCount s) = wsCount s ->
  wsCount (runOp s op) = wrap_int (wsCount s + servedCount s [op]).
Proof.
  intros Hr. destruct op as [user sid pass|hs]; simpl.
  - rewrite authUser_wsCount. rewrite Z.add_0_r. now symmetry.
  - rewrite handleWS_wsCount.
    destruct ((handleWS s hs).2); rewrite ?Z.add_0_r; auto.
Qed.

(** [wsCount] counts the served sessions: other endings and calls of
    [authUser] leave it alone, and it wraps as a Go [int] does. *)
Theorem wsCount_counts_served (s : Server) (ops : list Op) :
  - 2 ^ 63 <= wsCount s < 2 ^ 63 ->
  wsCount (runOps s ops) = wrap_int (wsCount s + servedCount s ops) /\
  0 <= servedCount s ops <= Z.of_nat (length ops) /\
  (wsCount s + servedCount s ops < 2 ^ 63 ->
   wsCount (runOps s ops) = wsCount s + servedCount s ops).
Proof.
  intros Hr.
  assert (Hb : forall s0, 0 <= servedCount s0 ops <= Z.of_nat (length ops)).
  { induction ops as [|op ops IH]; intros s0; [simpl; lia|].
    rewrite servedCount_cons. specialize (IH (runOp s0 op)).
    pose proof (servedCount_one s0 op).
    change (length (op :: ops)) with (S (length ops)). lia. }
  assert (Hw : wsCount (runOps s ops)
               = wrap_int (wsCount s + servedCount s ops)).
  { apply wrap_int_id in Hr. clear Hb. revert s Hr.
    induction ops as [|op ops IH]; intros s Hr.
    - simpl. rewrite Z.add_0_r. now symmetry.
    - change (runOps s (op :: ops)) with (runOps (runOp s op) ops).
      rewrite IH.
      + rewrite (runOp_wsCount s op Hr), wrap_int_add.
        f_equal. rewrite (servedCount_cons s op ops). lia.
      + rewrite (runOp_wsCount s op Hr).
        apply wrap_int_id, wrap_int_range. }
  split; [exact Hw|]. split; [apply Hb|].
  intros Hlt. rewrite Hw. apply wrap_int_id. specialize (Hb s). lia.
Qed.

(** [handleWS] never sends anything but a rejection on the config
    request: a reply is [false], is followed by the close of the
    connection and is all that the session does; and the dispatcher is
    started exactly in the served sessions, under the session's number. *)
Theorem handleWS_replies_are_rejections (s : Server) (hs : Handshake) :
  let out := handleWS s hs in
  (forall ok payload,
     In (Reply ok payload) out.1.2 ->
     ok = false /\ out = (s, [Reply false payload; ConnClose], Rejected)) /\
  (out.2 = Rejected ->
   exists payload, out = (s, [Reply false payload; ConnClose], Rejected)) /\
  (forall id,
     In (GoConnectStreams id) out.1.2 <->
     out.2 = Served /\ id = wrap_int (wsCount s + 1)).
Proof.
  intros out. subst out.
  destruct (handleWS_cases s hs)
    as [(err & _ & Hout)|[(sid0 & _ & Hout)|[(sid0 & r0 & msg & _ & Hout)
       |(sid0 & r0 & c & _ & _ & _ & _ & Hout)]]];
    rewrite Hout; simpl.
  - split; [|split].
    + intros ok payload [Hin|[]]. discriminate.
    + discriminate.
    + intros id. split; [intros [Hin|[]]; discriminate|intros [? _]; discriminate].
  - split; [|split].
    + intros ok payload [].
    + discriminate.
    + intros id. split; [intros []|intros [? _]; discriminate].
  - split; [|split].
    + intros ok payload [Hin|[Hin|[]]]; [|discriminate].
      injection Hin as <- <-. auto.
    + eauto.
    + intros id. split; [|intros [? _]; discriminate].
      intros [Hin|[Hin|[]]]; discriminate.
  - split; [|split].
    + intros ok payload Hin.
      repeat (destruct Hin as [Hin|Hin]; [discriminate|]). destruct Hin.
    + discriminate.
    + intros id. split.
      * intros Hin.
        destruct Hin as [Hin|[Hin|[Hin|Hin]]]; try discriminate.
        -- injection Hin as <-. auto.
        -- repeat (destruct Hin as [Hin|Hin]; [discriminate|]). destruct Hin.
      * intros [_ ->]. auto.
Qed.

(** [handleWS] panics exactly when the request channel yields no first
    request, and ends at the handshake exactly when the handshake fails;
    neither sends a reply or touches the server. *)
Theorem handleWS_endings (s : Server) (hs : Handshake) :
  let out := handleWS s hs in
  (out.2 = Panicked <-> exists sid, hs = HandshakeOK sid None) /\
  (out.2 = HandshakeError <-> exists err, hs = HandshakeFailed err) /\
  (out.2 = Panicked \/ out.2 = HandshakeError ->
   out.1.1 = s /\ forall ok payload, ~ In (Reply ok payload) out.1.2).
Proof.
  intros out. subst out.
  destruct (handleWS_cases s hs)
    as [(err & -> & Hout)|[(sid0 & -> & Hout)|[(sid0 & r0 & msg & -> & Hout)
       |(sid0 & r0 & c & -> & _ & _ & _ & Hout)]]];
    rewrite Hout; simpl.
  - split; [split; [discriminate|intros [? ?]; discriminate]|].
    split; [split; eauto|].
    intros _. split; [reflexivity|]. intros ok payload [Hin|[]]. discriminate.
  - split; [split; eauto|].
    split; [split; [discriminate|intros [? ?]; discriminate]|].
    intros _. split; [reflexivity|]. intros ok payload [].
  - split; [split; [discriminate|intros [? ?]; discriminate]|].
    split; [split; [discriminate|intros [? ?]; discriminate]|].
    intros [?|?]; discriminate.
  - split; [split; [discriminate|intros [? ?]; discriminate]|].
    split; [split; [discriminate|intros [? ?]; discriminate]|].
    intros [?|?]; discriminate.
Qed.

End counter.

(** ** The concurrent dispatcher: streams and the SOCKS server *)

Section streams.

(** Induction over the runs of the dispatcher. *)
Lemma dispatch_invariant (P : Dispatcher -> Prop) (d0 : Dispatcher) :
  P d0 ->
  (forall d d', P d -> dispatch d d' -> P d') ->
  forall d, rtc dispatch d0 d -> P d.
Proof.
  intros H0 Hstep. apply (rtc_ind_r P d0); [exact H0|].
  intros y z _ Hyz Py. now apply (Hstep y z).
Qed.

Lemma countEvents_app (f : TunnelEvent -> bool) (a b : list TunnelEvent) :
  countEvents f (a ++ b) = countEvents f a + countEvents f b.
Proof. induction a as [|e a IH]; simpl; [reflexivity|]. rewrite IH. lia. Qed.

Lemma countHolding_app (hs hs' : list (NewChannel * Pc)) :
  countHolding (hs ++ hs') = countHolding hs + countHolding hs'.
Proof.
  induction hs as [|[ch pc] hs IH]; simpl; [reflexivity|]. rewrite IH. lia.
Qed.

Lemma countHolding_insert (hs : list (NewChannel * Pc)) (i : nat)
    (ch : NewChannel) (pc pc' : Pc) :
  hs !! i = Some (ch, pc) ->
  countHolding (<[i := (ch, pc')]> hs) =
  countHolding hs + (if holding pc' then 1 else 0)
                  - (if holding pc then 1 else 0).
Proof.
  revert i. induction hs as [|[ch0 pc0] hs IH]; intros i Hi; [discriminate|].
  destruct i as [|i]; simpl in *.
  - injection Hi as -> ->. lia.
  - rewrite (IH i Hi). lia.
Qed.

Lemma countHolding_returned (hs : list (NewChannel * Pc)) :
  (forall ch pc, In (ch, pc) hs -> pc = AtReturn) -> countHolding hs = 0.
Proof.
  induction hs as [|[ch pc] hs IH]; intros Hall; simpl; [reflexivity|].
  rewrite (Hall ch pc) by now left. simpl.
  apply IH. intros ch' pc' Hin. apply (Hall ch' pc'). now right.
Qed.

(** The protocol handlers neither accept nor close the channel stream. *)
Lemma protocolHandler_streams (id : Z) (ch : NewChannel) :
  countEvents isAccept (protocolHandler id ch).1 = 0 /\
  countEvents isStreamClose (protocolHandler id ch).1 = 0.
Proof.
  unfold protocolHandler, handleSocks, handleUDP, handleTCP.
  destruct (String.eqb (ExtraData ch) "socks"); [now split|].
  destruct (String.eqb (ExtraData ch) "udp"); [now split|].
  destruct (DialErr ch); now split.
Qed.

Lemma stepChannel_streams (t : Tunnel) (ch : NewChannel) (pc : Pc) :
  countEvents isAccept (stepChannel t ch pc).1.2
  - countEvents isStreamClose (stepChannel t ch pc).1.2 =
  (if holding (stepChannel t ch pc).2 then 1 else 0)
  - (if holding pc then 1 else 0).
Proof.
  destruct pc; simpl; try reflexivity.
  - destruct (_ && _); simpl; [reflexivity|].
    destruct (AcceptErr ch); reflexivity.
  - destruct (protocolHandler_streams id0 ch) as [Ha Hc].
    destruct (protocolHandler id0 ch) as [evs err]. simpl in *. lia.
Qed.

Lemma dispatch_streams (d d' : Dispatcher) :
  dispatch d d' ->
  countEvents isAccept (trace d') - countEvents isStreamClose (trace d')
  - countHolding (handlers d') =
  countEvents isAccept (trace d) - countEvents isStreamClose (trace d)
  - countHolding (handlers d).
Proof.
  intros Hstep. destruct Hstep as [d0 ch|d0 i ch pc t' evs pc' Hi Hpc Hs];
    simpl.
  - rewrite countHolding_app. simpl. lia.
  - rewrite !countEvents_app, (countHolding_insert _ _ _ _ _ Hi).
    pose proof (stepChannel_streams (tunnel d0) ch pc) as Hst.
    rewrite Hs in Hst. simpl in Hst. lia.
Qed.

(** However the handlers of a session interleave, the streams accepted so
    far are the streams closed so far plus those still held by a handler;
    once every handler has returned, every accepted stream is closed. *)
Theorem accepted_streams_are_closed (t : Tunnel) (d : Dispatcher) :
  rtc dispatch (mkDispatcher t [] []) d ->
  countEvents isAccept (trace d) =
  countEvents isStreamClose (trace d) + countHolding (handlers d) /\
  ((forall ch pc, In (ch, pc) (handlers d) -> pc = AtReturn) ->
   countEvents isAccept (trace d) = countEvents isStreamClose (trace d)).
Proof.
  intros Hrun.
  assert (Hinv : countEvents isAccept (trace d) =
                 countEvents isStreamClose (trace d)
                 + countHolding (handlers d)).
  { revert d Hrun. apply dispatch_invariant; [reflexivity|].
    intros d d' Hd Hstep. pose proof (dispatch_streams _ _ Hstep). lia. }
  split; [exact Hinv|].
  intros Hall. rewrite Hinv, (countHolding_returned _ Hall). lia.
Qed.

(** What one step does with respect to the SOCKS server. *)
Lemma stepChannel_socks (t : Tunnel) (ch : NewChannel) (pc : Pc) :
  socksServer (stepChannel t ch pc).1.1 = socksServer t /\
  (holding (stepChannel t ch pc).2 = true ->
   holding pc = true \/
   (ExtraData ch = "socks"%string -> socksServer t <> None)) /\
  (In ServeConn (stepChannel t ch pc).1.2 ->
   holding pc = true /\ ExtraData ch = "socks"%string).
Proof.
  destruct pc; simpl.
  - destruct (String.eqb_spec (ExtraData ch) "socks") as [E|E]; simpl.
    + case_bool_decide as Hsrv; simpl.
      * split; [reflexivity|]. split; [discriminate|]. absent_event.
      * destruct (AcceptErr ch); simpl.
        -- split; [reflexivity|]. split; [discriminate|]. absent_event.
        -- split; [reflexivity|]. split; [intros _; right; auto|].
           absent_event.
    + destruct (AcceptErr ch); simpl.
      * split; [reflexivity|]. split; [discriminate|]. absent_event.
      * split; [reflexivity|]. split; [intros _; right; contradiction|].
        absent_event.
  - split; [reflexivity|]. split; [auto|]. absent_event.
  - split; [reflexivity|]. split; [auto|]. absent_event.
  - split; [reflexivity|]. split; [auto|]. absent_event.
  - unfold protocolHandler, handleSocks, handleUDP, handleTCP.
    destruct (String.eqb_spec (ExtraData ch) "socks") as [E|E]; simpl.
    + auto.
    + destruct (String.eqb (ExtraData ch) "udp"); simpl.
      * split; [reflexivity|]. split; [auto|]. absent_event.
      * destruct (DialErr ch); simpl;
          (split; [reflexivity|]; split; [auto|]; absent_event).
  - split; [reflexivity|]. split; [auto|]. absent_event.
  - split; [reflexivity|]. split; [discriminate|]. absent_event.
  - split; [reflexivity|]. split; [discriminate|]. absent_event.
Qed.

Lemma dispatch_socksInv (t0 : Tunnel) (d d' : Dispatcher) :
  socksInv t0 d -> dispatch d d' -> socksInv t0 d'.
Proof.
  intros Hinv Hstep. revert Hinv.
  destruct Hstep as [d0 ch|d0 i ch pc t' evs pc' Hi Hpc Hs];
    intros (Hsrv & Hhold & Htr); unfold socksInv; simpl.
  - split; [exact Hsrv|]. split; [|exact Htr].
    intros j ch' pc' Hj Hh Hsocks. simpl in Hj.
    apply lookup_app_Some in Hj as [Hj|[_ Hj]]; [eauto|].
    apply list_lookup_singleton_Some in Hj as [_ Hj].
    injection Hj as <- <-. discriminate.
  - pose proof (stepChannel_socks (tunnel d0) ch pc) as (Hs1 & Hs2 & Hs3).
    rewrite Hs in Hs1, Hs2, Hs3. simpl in Hs1, Hs2, Hs3.
    split; [congruence|]. split.
    + intros j ch' pc'' Hj Hh Hsocks.
      destruct (decide (i = j)) as [<-|Hne].
      * rewrite list_lookup_insert_eq in Hj
          by (now apply lookup_lt_Some in Hi).
        injection Hj as <- <-.
        destruct (Hs2 Hh) as [Hold|Hnew]; [eauto|].
        rewrite <- Hsrv. now apply Hnew.
      * rewrite list_lookup_insert_ne in Hj by exact Hne. eauto.
    + intros Hin. apply in_app_or in Hin as [Hin|Hin]; [auto|].
      destruct (Hs3 Hin) as [Hold Hsocks]. eauto.
Qed.

(** Whatever the interleaving, the SOCKS server of the tunnel stays the
    one it started with, and [ServeConn] is only ever called on a server
    that is there: [handleSocks] never runs with [t.socksServer == nil]. *)
Theorem socks_is_served_only_with_a_server (t : Tunnel) (d : Dispatcher) :
  rtc dispatch (mkDispatcher t [] []) d ->
  socksServer (tunnel d) = socksServer t /\
  (In ServeConn (trace d) -> socksServer t <> None).
Proof.
  intros Hrun.
  assert (Hinv : socksInv t d).
  { revert d Hrun. apply dispatch_invariant.
    - split; [reflexivity|]. split; [|intros []].
      intros i ch pc Hi. discriminate.
    - apply dispatch_socksInv. }
  destruct Hinv as (Hsrv & _ & Htr). auto.
Qed.

End streams.

(** ** One handler after the other is one of the interleavings *)

Section schedule.

Lemma dispatcher_eta (d : Dispatcher) :
  mkDispatcher (tunnel d) (handlers d) (trace d) = d.
Proof. now destruct d. Qed.

Lemma runChannel_returned (n : nat) (t : Tunnel) (ch : NewChannel) :
  runChannel n t ch AtReturn = (t, [], AtReturn).
Proof. induction n as [|n IH]; simpl; [reflexivity|]. now rewrite IH. Qed.

(** [n] steps of the handler at position [i], as steps of the
    dispatcher. *)
Lemma runChannel_dispatch (n : nat) :
  forall (d : Dispatcher) (i : nat) (ch : NewChannel) (pc : Pc),
    handlers d !! i = Some (ch, pc) ->
    rtc dispatch d
      (mkDispatcher (runChannel n (tunnel d) ch pc).1.1
         (<[i := (ch, (runChannel n (tunnel d) ch pc).2)]> (handlers d))
         (trace d ++ (runChannel n (tunnel d) ch pc).1.2)).
Proof.
  induction n as [|n IH]; intros d i ch pc Hi.
  - simpl. rewrite list_insert_id by exact Hi. rewrite app_nil_r.
    rewrite dispatcher_eta. apply rtc_refl.
  - assert (Hcase : pc = AtReturn \/ pc <> AtReturn)
      by (destruct pc; auto; right; discriminate).
    destruct Hcase as [->|Hpc].
    + rewrite runChannel_returned. simpl.
      rewrite list_insert_id by exact Hi. rewrite app_nil_r.
      rewrite dispatcher_eta. apply rtc_refl.
    + simpl.
      destruct (stepChannel (tunnel d) ch pc) as [[t1 evs1] pc1] eqn:Hs.
      pose proof (dispatch_step d i ch pc t1 evs1 pc1 Hi Hpc Hs) as Hstep.
      set (d1 := mkDispatcher t1 (<[i := (ch, pc1)]> (handlers d))
                   (trace d ++ evs1)) in *.
      assert (Hi1 : handlers d1 !! i = Some (ch, pc1)).
      { subst d1. simpl. apply list_lookup_insert_eq.
        now apply lookup_lt_Some in Hi. }
      specialize (IH d1 i ch pc1 Hi1). subst d1. simpl in IH.
      destruct (runChannel n t1 ch pc1) as [[t2 evs2] pc2]. simpl in *.
      rewrite list_insert_insert_eq, <- app_assoc in IH.
      eapply rtc_l; eauto.
Qed.

Lemma handleSSHChannels_dispatch (chans : list NewChannel) :
  forall d : Dispatcher,
    rtc dispatch d
      (mkDispatcher (handleSSHChannels (tunnel d) chans).1
         (handlers d ++ map (fun ch => (ch, AtReturn)) chans)
         (trace d ++ (handleSSHChannels (tunnel d) chans).2)).
Proof.
  induction chans as [|ch rest IH]; intros d.
  - simpl. rewrite !app_nil_r, dispatcher_eta. apply rtc_refl.
  - eapply rtc_l; [apply (dispatch_go d ch)|].
    set (d1 := mkDispatcher (tunnel d) (handlers d ++ [(ch, AtStart)])
                 (trace d)).
    assert (Hi : handlers d1 !! length (handlers d) = Some (ch, AtStart)).
    { subst d1. simpl. apply list_lookup_middle. reflexivity. }
    pose proof (runChannel_dispatch 7 d1 (length (handlers d)) ch AtStart Hi)
      as Hrun.
    subst d1. cbn [tunnel handlers trace] in Hrun.
    rewrite runChannel_handleSSHChannel in Hrun.
    cbn [fst snd] in Hrun.
    rewrite insert_app_r_alt in Hrun by lia.
    rewrite Nat.sub_diag in Hrun. cbn [insert list_insert] in Hrun.
    eapply rtc_trans; [exact Hrun|]. clear Hrun Hi.
    rewrite handleSSHChannels_cons.
    set (d2 := mkDispatcher (handleSSHChannel (tunnel d) ch).1
                 (handlers d ++ [(ch, AtReturn)])
                 (trace d ++ (handleSSHChannel (tunnel d) ch).2)).
    specialize (IH d2). subst d2. simpl in IH. simpl.
    rewrite <- !app_assoc in IH. exact IH.
Qed.

(** Handling the channels one after the other, each to its return, is
    one of the runs of the concurrent dispatcher: it ends with every
    handler returned, in the tunnel and with the events that
    [handleSSHChannels] computes. *)
Theorem sequential_run_is_a_schedule (t : Tunnel) (chans : list NewChannel) :
  rtc dispatch (mkDispatcher t [] [])
    (mkDispatcher (handleSSHChannels t chans).1
       (map (fun ch => (ch, AtReturn)) chans)
       (handleSSHChannels t chans).2).
Proof. apply (handleSSHChannels_dispatch chans (mkDispatcher t [] [])). Qed.

End schedule.

(** ** The closing log line *)

Section closing.

Lemma length_append (a b : string) :
  String.length (a +:+ b) = (String.length a + String.length b)%nat.
Proof.
  induction a as [|c a IH]; [reflexivity|].
  change (S (String.length (a +:+ b)) = S (String.length a + String.length b)).
  now rewrite IH.
Qed.

Lemma substring_whole (s : string) : substring 0 (String.length s) s = s.
Proof. induction s as [|c s IH]; simpl; [reflexivity|]. now rewrite IH. Qed.

Lemma substring_skip (a b : string) (m : nat) :
  substring (String.length a) m (a +:+ b) = substring 0 m b.
Proof.
  induction a as [|c a IH]; [reflexivity|].
  change (substring (String.length a) m (a +:+ b) = substring 0 m b).
  exact IH.
Qed.

Lemma substring_split (s : string) :
  forall n, (n <= String.length s)%nat ->
    s = substring 0 n s +:+ substring n (String.length s - n) s.
Proof.
  induction s as [|c s IH]; intros n Hn.
  - simpl in Hn. now replace n with 0%nat by lia.
  - destruct n as [|n].
    + simpl. now rewrite substring_whole.
    + simpl in Hn. simpl substring.
      change (String c s = String c (substring 0 n s +:+
                                       substring n (String.length s - n) s)).
      f_equal. apply IH. lia.
Qed.

(** [HasSuffix s suffix] holds exactly when [s] ends with [suffix]. *)
Lemma HasSuffix_spec (s suffix : string) :
  HasSuffix s suffix = true <-> exists before, s = before +:+ suffix.
Proof.
  unfold HasSuffix. rewrite andb_true_iff, Nat.leb_le, String.eqb_eq. split.
  - intros [Hlen Hsub].
    exists (substring 0 (String.length s - String.length suffix) s).
    rewrite (substring_split s (String.length s - String.length suffix))
      at 1 by lia.
    f_equal.
    replace (String.length s - (String.length s - String.length suffix))%nat
      with (String.length suffix) by lia.
    exact Hsub.
  - intros [before ->]. rewrite length_append. split; [lia|].
    replace (String.length before + String.length suffix
             - String.length suffix)%nat
      with (String.length before) by lia.
    rewrite substring_skip. apply substring_whole.
Qed.

Lemma closeError_spec (err : option string) (e : string) :
  closeError err = Some e <->
  err = Some e /\ forall before, e <> before +:+ "EOF".
Proof.
  unfold closeError. destruct err as [e0|].
  - destruct (HasSuffix e0 "EOF") eqn:Hsuf; simpl.
    + apply HasSuffix_spec in Hsuf as [before Hb]. split; [discriminate|].
      intros [[= ->] Hno]. now destruct (Hno before).
    + split.
      * intros [= ->]. split; [reflexivity|]. intros before Hb.
        assert (HasSuffix e "EOF" = true)
          by (apply HasSuffix_spec; eauto).
        congruence.
      * now intros [[= ->] _].
  - split; [discriminate|]. now intros [? _].
Qed.

Lemma protocolHandler_no_close_line (id : Z) (ch : NewChannel)
    (id' : Z) (stats : ConnStats) (err : option string) :
  ~ In (LogClose id' stats err) (protocolHandler id ch).1.
Proof.
  unfold protocolHandler, handleSocks, handleUDP, handleTCP.
  destruct (String.eqb (ExtraData ch) "socks"); [absent_event|].
  destruct (String.eqb (ExtraData ch) "udp"); [absent_event|].
  destruct (DialErr ch); absent_event.
Qed.

(** For an accepted channel the handler writes one closing line; the line
    carries an error exactly when the protocol handler returned one whose
    text does not end with "EOF". *)
Theorem close_line_shows_error (t : Tunnel) (ch : NewChannel) (e : string) :
  (ExtraData ch = "socks"%string -> socksServer t <> None) ->
  AcceptErr ch = None ->
  let id := total (connStats t) + 1 in
  (exists id' stats, In (LogClose id' stats (Some e)) (handleSSHChannel t ch).2) <->
  (protocolHandler id ch).2 = Some e /\ forall before, e <> before +:+ "EOF".
Proof.
  intros Hs Ha id.
  rewrite (handleSSHChannel_accepted t ch Hs Ha). fold id. cbn [snd].
  rewrite <- closeError_spec. split.
  - intros (id' & stats & Hin).
    destruct Hin as [Hin|[Hin|[Hin|Hin]]]; try discriminate.
    change ([] ++ ?l) with l in Hin.
    apply in_app_or in Hin as [Hin|Hin].
    + now apply protocolHandler_no_close_line in Hin.
    + destruct Hin as [Hin|[Hin|[]]]; [|discriminate].
      now injection Hin as _ _ ->.
  - intros Hc. rewrite Hc. eexists _, _.
    apply in_or_app. right. apply in_or_app. right. left. reflexivity.
Qed.

End closing.

(** ** The proxy manager: connections, loops and start-up *)

Section forwarding.
Context `{Collaborators}.


Lemma pipeRemote_open_line (p : Proxy) (src : Src) (conn : option SSHConn) :
  In (ConnDebugf (wrap_int (count p + 1)) "Open") (pipeRemote p src conn).2.
Proof. now left. Qed.



(** Every path of [pipeRemote] starts with the "Open" line and ends with
    the one [src.Close()]; a channel is opened at most under the name
    "chisel" with the rule's text, only on a connection that is there,
    and bytes are piped only through a channel that opened. *)
Theorem pipeRemote_closes_its_source (p : Proxy) (src : Src)
    (conn : option SSHConn) :
  let out := pipeRemote p src conn in
  let cid := wrap_int (count p + 1) in
  out.1 = set_count cid p /\
  (exists body,
     out.2 = ConnDebugf cid "Open" :: body ++ [SrcClose src] /\
     forall src', ~ In (SrcClose src') body) /\
  (forall name data,
     In (OpenChannel name data) out.2 ->
     name = "chisel"%string /\ data = RemoteString (remote p) /\
     conn <> None) /\
  (forall src',
     In (PPipe src') out.2 ->
     src' = src /\ exists sent received,
       conn = Some (OpenChannelOK sent received)).
Proof.
  intros out cid. subst out. unfold pipeRemote. fold cid. cbn [fst snd].
  split; [reflexivity|].
  destruct conn as [[err|sent received]|].
  - split.
    { exists [OpenChannel "chisel" (RemoteString (remote p));
              ConnInfof cid ("Stream error: " +:+ err)].
      split; [reflexivity|intros src'; absent_event]. }
    simpl. split.
    + intros name data [Hin|[Hin|[Hin|[Hin|[]]]]]; try discriminate.
      injection Hin as <- <-. now repeat split.
    + intros src'. absent_event.
  - split.
    { exists [OpenChannel "chisel" (RemoteString (remote p));
              PGoDiscardRequests; PPipe src;
              ConnLogClose cid sent received].
      split; [reflexivity|intros src'; absent_event]. }
    simpl. split.
    + intros name data Hin.
      destruct Hin as [Hin|[Hin|Hin]]; try discriminate.
      * injection Hin as <- <-. now repeat split.
      * revert Hin. absent_event.
    + intros src' Hin.
      destruct Hin as [Hin|[Hin|[Hin|[Hin|Hin]]]]; try discriminate.
      * injection Hin as <-. eauto.
      * revert Hin. absent_event.
  - split.
    { exists [ConnDebugf cid "No remote connection"].
      split; [reflexivity|intros src'; absent_event]. }
    simpl.
    split; [intros name data; absent_event | intros src'; absent_event].
Qed.




End forwarding.

(** ** The stdio loop, [Run] and [NewProxy] *)

Section running.
Context `{Collaborators}.

Lemma runStdio_done (ssh : nat -> option SSHConn) (done : nat -> bool)
    (fuel : nat) :
  forall (p : Proxy) (i : nat),
    (exists k, (k < fuel)%nat /\ done (i + k)%nat = true) ->
    exists p' evs, runStdio fuel p ssh done i = Some (p', evs).
Proof.
  induction fuel as [|fuel IH]; intros p i (k & Hk & Hd); [lia|].
  simpl. destruct (done i) eqn:Hi; [eauto|].
  destruct k as [|k]; [replace (i + 0)%nat with i in Hd by lia; congruence|].
  destruct (IH (set_count (wrap_int (count p + 1)) p) (S i))
    as (p' & evs & Hr).
  { exists k. split; [lia|].
    now replace (S i + k)%nat with (i + S k)%nat by lia. }
  rewrite Hr. eauto.
Qed.

Lemma runStdio_inv (ssh : nat -> option SSHConn) (done : nat -> bool)
    (fuel : nat) :
  forall (p p' : Proxy) (i : nat) (evs : list ProxyEvent),
    runStdio fuel p ssh done i = Some (p', evs) ->
    exists k, (k < fuel)%nat /\ done (i + k)%nat = true /\
              (forall j, (j < k)%nat -> done (i + j)%nat = false).
Proof.
  induction fuel as [|fuel IH]; intros p p' i evs Hr; [discriminate|].
  simpl in Hr. destruct (done i) eqn:Hi.
  - exists 0%nat. replace (i + 0)%nat with i by lia.
    split; [lia|]. split; [exact Hi|]. intros j Hj. lia.
  - destruct (runStdio fuel (set_count (wrap_int (count p + 1)) p)
                ssh done (S i)) as [[p2 evs2]|] eqn:Hr2; [|discriminate].
    destruct (IH _ _ _ _ Hr2) as (k & Hk & Hd & Hb).
    exists (S k). split; [lia|].
    split; [now replace (i + S k)%nat with (S i + k)%nat by lia|].
    intros j Hj. destruct j as [|j].
    + now replace (i + 0)%nat with i by lia.
    + replace (i + S j)%nat with (S i + j)%nat by lia. apply Hb. lia.
Qed.

(** [runStdio] returns exactly when some [select] finds the context done:
    while the context is not cancelled it goes round again, whether or
    not the transport is connected. *)
Theorem runStdio_returns_iff_cancelled (fuel : nat) (p : Proxy)
    (ssh : nat -> option SSHConn) (done : nat -> bool) (i : nat) :
  (exists p' evs, runStdio fuel p ssh done i = Some (p', evs)) <->
  (exists k, (k < fuel)%nat /\ done (i + k)%nat = true).
Proof.
  split.
  - intros (p' & evs & Hr).
    destruct (runStdio_inv ssh done fuel p p' i evs Hr) as (k & Hk & Hd & _).
    eauto.
  - apply runStdio_done.
Qed.

Lemma runStdio_rounds_at (ssh : nat -> option SSHConn) (done : nat -> bool)
    (k : nat) :
  forall (i fuel : nat) (p : Proxy),
    - 2 ^ 63 <= count p < 2 ^ 63 ->
    done (i + k)%nat = true ->
    (forall j, (j < k)%nat -> done (i + j)%nat = false) ->
    (k < fuel)%nat ->
    exists p' evs,
      runStdio fuel p ssh done i = Some (p', evs) /\
      remote p' = remote p /\
      count p' = wrap_int (count p + Z.of_nat k + 1) /\
      forall j, (j <= k)%nat ->
        In (ConnDebugf (wrap_int (count p + Z.of_nat j + 1)) "Open") evs.
Proof.
  induction k as [|k IH]; intros i fuel p Hr Hd Hb Hf.
  - destruct fuel as [|fuel]; [lia|]. simpl.
    replace (i + 0)%nat with i in Hd by lia. rewrite Hd.
    eexists _, _. split; [reflexivity|]. split; [reflexivity|].
    split; [simpl; f_equal; lia|].
    intros j Hj. replace j with 0%nat by lia.
    left. do 2 f_equal. lia.
  - destruct fuel as [|fuel]; [lia|]. simpl.
    assert (Hi : done i = false).
    { specialize (Hb 0%nat). replace (i + 0)%nat with i in Hb by lia.
      apply Hb. lia. }
    rewrite Hi.
    destruct (IH (S i) fuel (set_count (wrap_int (count p + 1)) p))
      as (p' & evs & Hrun & Hrem & Hcnt & Hopen).
    + simpl. apply wrap_int_range.
    + now replace (S i + k)%nat with (i + S k)%nat by lia.
    + intros j Hj. replace (S i + j)%nat with (i + S j)%nat by lia.
      apply Hb. lia.
    + lia.
    + rewrite Hrun. eexists _, _. split; [reflexivity|].
      split; [exact Hrem|]. simpl in Hcnt, Hopen. split.
      * rewrite Hcnt, <- Z.add_assoc, wrap_int_add. f_equal. lia.
      * intros j Hj. destruct j as [|j]; [left; do 2 f_equal; lia|].
        right. apply in_or_app. right.
        specialize (Hopen j ltac:(lia)).
        rewrite <- Z.add_assoc, wrap_int_add in Hopen.
        now replace (count p + Z.of_nat (S j) + 1)
          with (count p + 1 + (Z.of_nat j + 1)) by lia.
Qed.

(** When the context is first found done in round [k], [runStdio] has
    made [k + 1] pipe attempts, numbered from [count + 1] on, each with
    its "Open" line, and returns with the counter moved by [k + 1]; with
    no more fuel than [k] it is still in its loop. *)
Theorem runStdio_rounds (fuel k : nat) (p : Proxy)
    (ssh : nat -> option SSHConn) (done : nat -> bool) :
  - 2 ^ 63 <= count p < 2 ^ 63 ->
  done k = true ->
  (forall j, (j < k)%nat -> done j = false) ->
  ((fuel <= k)%nat -> runStdio fuel p ssh done 0 = None) /\
  ((k < fuel)%nat ->
   exists p' evs,
     runStdio fuel p ssh done 0 = Some (p', evs) /\
     remote p' = remote p /\
     count p' = wrap_int (count p + Z.of_nat k + 1) /\
     forall j, (j <= k)%nat ->
       In (ConnDebugf (wrap_int (count p + Z.of_nat j + 1)) "Open") evs).
Proof.
  intros Hr Hd Hb. split.
  - intros Hf.
    destruct (runStdio fuel p ssh done 0) as [[p' evs]|] eqn:Hrun;
      [|reflexivity].
    destruct (runStdio_inv ssh done fuel p p' 0 evs Hrun) as (k' & Hk' & Hd' & _).
    simpl in Hd'. rewrite (Hb k') in Hd' by lia. discriminate.
  - intros Hf. now apply (runStdio_rounds_at ssh done k 0 fuel p).
Qed.

(** [Run] ends in its [panic] in two cases only: a stdio rule whose
    context is cancelled, and a rule that is neither stdio, tcp nor udp. *)
Theorem Run_panics_iff (fuel : nat) (p : Proxy) (env : RunEnv)
    (msg : string) :
  (Run fuel p env).2 = Panics msg <->
  msg = "should not get here"%string /\
  ((Stdio (remote p) = true /\
    exists k, (k < fuel)%nat /\ done env k = true) \/
   (Stdio (remote p) = false /\
    LocalProto (remote p) <> "tcp"%string /\
    LocalProto (remote p) <> "udp"%string)).
Proof.
  unfold Run. destruct (Stdio (remote p)) eqn:Hs.
  - destruct (runStdio fuel p (ssh env) (done env) 0) as [[p1 evs]|] eqn:Hr.
    + destruct (runStdio_inv _ _ _ _ _ _ _ Hr) as (k & Hk & Hd & _).
      simpl. split.
      * intros [= <-]. split; [reflexivity|]. left. eauto.
      * intros [-> _]. reflexivity.
    + simpl. split; [discriminate|].
      intros [_ [[_ Hex]|[? _]]]; [|discriminate].
      destruct (runStdio_done (ssh env) (done env) fuel p 0 Hex)
        as (p' & evs & Hr').
      congruence.
  - destruct (String.eqb_spec (LocalProto (remote p)) "tcp") as [Et|Et].
    + destruct (runTCP p (answers env) 0) as [[[p1 evs] err]|]; simpl;
        (split; [discriminate|]);
        intros [_ [[? _]|[_ [Hn _]]]]; [discriminate|contradiction| |];
        try discriminate; contradiction.
    + destruct (String.eqb_spec (LocalProto (remote p)) "udp") as [Eu|Eu].
      * simpl. split; [discriminate|].
        intros [_ [[? _]|[_ [_ Hn]]]]; [discriminate|contradiction].
      * simpl. split.
        -- intros [= <-]. split; [reflexivity|]. right. auto.
        -- intros [-> _]. reflexivity.
Qed.

Lemma listen_ok (p : Proxy) (env : ListenEnv) :
  (listen p env).2 = None ->
  Stdio (remote p) = false ->
  ((listen p env).1.1 = Some TCPListener /\
   LocalProto (remote p) = "tcp"%string) \/
  ((listen p env).1.1 = Some UDPListener /\
   LocalProto (remote p) = "udp"%string).
Proof.
  unfold listen. intros Hok Hs. rewrite Hs in *.
  destruct (String.eqb_spec (LocalProto (remote p)) "tcp") as [Et|Et].
  - destruct (resolveErr env); [discriminate|].
    destruct (listenErr env); [discriminate|]. now left.
  - destruct (String.eqb_spec (LocalProto (remote p)) "udp") as [Eu|Eu].
    + destruct (bindErr env); [discriminate|]. now right.
    + discriminate.
Qed.

(** [NewProxy] numbers the proxy [index + 1], starts its connection
    counter at zero and returns it with the result of [listen].  When
    [listen] gives no error for a rule that is not stdio, the listener of
    the rule's protocol is stored and [Run] does not panic; a rule that is
    neither stdio, tcp nor udp gets the error "unknown local proto" and no
    listener, and [Run] on the proxy that is returned all the same
    panics. *)
Theorem NewProxy_listens (fork : Z -> Remote -> Logger) (index : Z)
    (r : Remote) (env : ListenEnv) :
  let p := (NewProxy fork index r env).1 in
  let res := (NewProxy fork index r env).2 in
  id p = wrap_int (index + 1) /\ count p = 0 /\ remote p = r /\
  (res.2 = None -> Stdio r = false ->
   ((res.1.1 = Some TCPListener /\ LocalProto r = "tcp"%string) \/
    (res.1.1 = Some UDPListener /\ LocalProto r = "udp"%string)) /\
   forall fuel renv msg, (Run fuel p renv).2 <> Panics msg) /\
  (Stdio r = false ->
   LocalProto r <> "tcp"%string ->
   LocalProto r <> "udp"%string ->
   res = (None, [], Some (Errorf (plogger p) "unknown local proto")) /\
   forall fuel renv, (Run fuel p renv).2 = Panics "should not get here").
Proof.
  intros p res. subst p res. unfold NewProxy. cbn [fst snd].
  set (p := mkProxy (fork (wrap_int (index + 1)) r) (wrap_int (index + 1)) 0 r).
  split; [reflexivity|]. split; [reflexivity|]. split; [reflexivity|]. split.
  - intros Hok Hs.
    destruct (listen_ok p env Hok Hs) as [[Hl Hp]|[Hl Hp]].
    + split; [now left|]. intros fuel renv msg.
      apply Run_tcp_udp; [exact Hs | now left].
    + split; [now right|]. intros fuel renv msg.
      apply Run_tcp_udp; [exact Hs | now right].
  - intros Hs Ht Hu. split.
    + unfold listen. simpl. rewrite Hs.
      destruct (String.eqb_spec (LocalProto r) "tcp"); [contradiction|].
      destruct (String.eqb_spec (LocalProto r) "udp"); [contradiction|].
      reflexivity.
    + intros fuel renv. unfold Run. simpl. rewrite Hs.
      destruct (String.eqb_spec (LocalProto r) "tcp"); [contradiction|].
      destruct (String.eqb_spec (LocalProto r) "udp"); [contradiction|].
      reflexivity.
Qed.

End running.

(** ** Requests, routing and refused channels *)

Section routing.

(** [handleSSHRequests] answers the pings and nothing else: one [true]
    per "ping", never a [false], and every other request is only
    logged. *)
Theorem handleSSHRequests_answers_pings (reqs : list string) :
  countEvents isReply (handleSSHRequests reqs) =
  Z.of_nat (length (List.filter (fun r => String.eqb r "ping") reqs)) /\
  (forall ok, In (ReqReply ok) (handleSSHRequests reqs) -> ok = true) /\
  (forall r, In r reqs -> r <> "ping"%string ->
             In (TDebugf ("Unknown request: " +:+ r)) (handleSSHRequests reqs)) /\
  length (handleSSHRequests reqs) = length reqs.
Proof.
  induction reqs as [|r reqs (IHc & IHt & IHu & IHl)].
  - simpl. repeat split; [intros ok []|intros r []].
  - change (handleSSHRequests (r :: reqs))
      with (handleSSHRequest r ++ handleSSHRequests reqs).
    cbn [List.filter]. unfold handleSSHRequest.
    destruct (String.eqb r "ping") eqn:E;
      cbn [app countEvents isReply length].
    + apply String.eqb_eq in E. repeat split.
      * rewrite IHc. lia.
      * intros ok [Hin|Hin]; [now injection Hin as <-|auto].
      * intros r' [->|Hin] Hne; [contradiction|]. right. auto.
      * now rewrite IHl.
    + repeat split.
      * rewrite IHc. lia.
      * intros ok [Hin|Hin]; [discriminate|auto].
      * intros r' [->|Hin] Hne; [now left|]. right. auto.
      * now rewrite IHl.
Qed.

Lemma in_middle (e : TunnelEvent) (pre x post : list TunnelEvent) :
  ~ In e pre -> ~ In e post -> (In e (pre ++ x ++ post) <-> In e x).
Proof.
  intros Hpre Hpost. rewrite !in_app_iff. tauto.
Qed.

Lemma protocolHandler_routes (id : Z) (ch : NewChannel) :
  let evs := (protocolHandler id ch).1 in
  (In ServeConn evs <-> ExtraData ch = "socks"%string) /\
  (In HandleUDP evs <->
   ExtraData ch <> "socks"%string /\ ExtraData ch = "udp"%string) /\
  (forall network addr,
     In (NetDial network addr) evs <->
     network = "tcp"%string /\ addr = ExtraData ch /\
     ExtraData ch <> "socks"%string /\ ExtraData ch <> "udp"%string) /\
  (In TPipe evs <->
   ExtraData ch <> "socks"%string /\ ExtraData ch <> "udp"%string /\
   DialErr ch = None).
Proof.
  unfold protocolHandler, handleSocks, handleUDP, handleTCP.
  destruct (String.eqb_spec (ExtraData ch) "socks") as [E|E]; cbn [fst].
  - split; [split; [auto|intros _; now left]|].
    split; [split; [absent_event|intros [? _]; contradiction]|].
    split; [|split; [absent_event|intros [? _]; contradiction]].
    intros network addr.
    split; [absent_event|intros (_ & _ & ? & _); contradiction].
  - destruct (String.eqb_spec (ExtraData ch) "udp") as [Eu|Eu]; cbn [fst].
    + split; [split; [absent_event|contradiction]|].
      split; [split; [auto|intros _; now left]|].
      split; [|split; [absent_event|intros (_ & ? & _); contradiction]].
      intros network addr.
      split; [absent_event|intros (_ & _ & _ & ?); contradiction].
    + destruct (DialErr ch) as [err|]; cbn [fst].
      * split; [split; [absent_event|contradiction]|].
        split; [split; [absent_event|intros [_ ?]; contradiction]|].
        split; [|split; [absent_event|intros (_ & _ & ?); discriminate]].
        intros network addr. split.
        -- intros [Hin|[]]. now injection Hin as <- <-.
        -- intros (-> & -> & _). now left.
      * split; [split; [absent_event|contradiction]|].
        split; [split; [absent_event|intros [_ ?]; contradiction]|].
        split; [|split; [auto|intros _; right; now left]].
        intros network addr. split.
        -- intros [Hin|[Hin|[Hin|[]]]]; try discriminate.
           now injection Hin as <- <-.
        -- intros (-> & -> & _). now left.
Qed.

(** An accepted channel goes to one protocol handler, picked by its tag:
    "socks" to the SOCKS server, "udp" to [handleUDP], anything else to a
    TCP dial of the tag itself, followed by the pipe when the dial
    succeeds. *)
Theorem accepted_channel_is_routed_by_tag (t : Tunnel) (ch : NewChannel) :
  (ExtraData ch = "socks"%string -> socksServer t <> None) ->
  AcceptErr ch = None ->
  let evs := (handleSSHChannel t ch).2 in
  (In ServeConn evs <-> ExtraData ch = "socks"%string) /\
  (In HandleUDP evs <->
   ExtraData ch <> "socks"%string /\ ExtraData ch = "udp"%string) /\
  (forall network addr,
     In (NetDial network addr) evs <->
     network = "tcp"%string /\ addr = ExtraData ch /\
     ExtraData ch <> "socks"%string /\ ExtraData ch <> "udp"%string) /\
  (In TPipe evs <->
   ExtraData ch <> "socks"%string /\ ExtraData ch <> "udp"%string /\
   DialErr ch = None).
Proof.
  intros Hs Ha evs. subst evs.
  rewrite (handleSSHChannel_accepted t ch Hs Ha). cbn [snd].
  set (id := total (connStats t) + 1).
  destruct (protocolHandler_routes id ch) as (Hsocks & Hudp & Hdial & Hpipe).
  split; [rewrite in_middle by absent_event; exact Hsocks|].
  split; [rewrite in_middle by absent_event; exact Hudp|].
  split; [|rewrite in_middle by absent_event; exact Hpipe].
  intros network addr. rewrite in_middle by absent_event. apply Hdial.
Qed.

Lemma handleSSHChannel_refused (t : Tunnel) (ch : NewChannel) :
  refused t ch = true ->
  (handleSSHChannel t ch).1 = t /\
  ~ In ChAccept (handleSSHChannel t ch).2 /\
  ~ In StreamClose (handleSSHChannel t ch).2.
Proof.
  unfold refused, handleSSHChannel. intros Hr.
  destruct (String.eqb (ExtraData ch) "socks" &&
            bool_decide (socksServer t = None)); simpl in *.
  - split; [reflexivity|]. split; absent_event.
  - destruct (AcceptErr ch); [|discriminate]. simpl.
    split; [reflexivity|]. split; absent_event.
Qed.

Lemma refused_socksServer (t t0 : Tunnel) (ch : NewChannel) :
  socksServer t = socksServer t0 -> refused t ch = refused t0 ch.
Proof. intros Hs. unfold refused. now rewrite Hs. Qed.

Lemma handleSSHChannels_skip_refused (chans : list NewChannel) :
  forall t t0 : Tunnel,
    socksServer t = socksServer t0 ->
    (handleSSHChannels t chans).1 =
    (handleSSHChannels t
       (List.filter (fun ch => negb (refused t0 ch)) chans)).1.
Proof.
  induction chans as [|ch chans IH]; intros t t0 Hs; [reflexivity|].
  cbn [List.filter]. rewrite <- (refused_socksServer t t0 ch Hs).
  destruct (refused t ch) eqn:Hr; cbn [negb].
  - rewrite handleSSHChannels_cons. cbn [fst].
    destruct (handleSSHChannel_refused t ch Hr) as [-> _].
    now apply IH.
  - rewrite !handleSSHChannels_cons. cbn [fst].
    apply IH. now rewrite handleSSHChannel_socksServer.
Qed.

(** A channel that is prohibited or whose accept fails leaves the tunnel
    as it was and neither accepts nor closes a stream; so the tunnel
    after a sequence of channels is the tunnel after the channels of the
    sequence that were accepted. *)
Theorem refused_channels_leave_the_tunnel (t : Tunnel)
    (chans : list NewChannel) :
  (forall ch, refused t ch = true ->
     (handleSSHChannel t ch).1 = t /\
     ~ In ChAccept (handleSSHChannel t ch).2 /\
     ~ In StreamClose (handleSSHChannel t ch).2) /\
  (handleSSHChannels t chans).1 =
  (handleSSHChannels t (List.filter (fun ch => negb (refused t ch)) chans)).1.
Proof.
  split; [intros ch; apply handleSSHChannel_refused|].
  now apply handleSSHChannels_skip_refused.
Qed.

End routing.

(** ** The session store holds configured users; [listen] *)

Section store.
Context `{Collaborators}.

Lemma handleWS_sessions (s : Server) (hs : Handshake) :
  sessions (handleWS s hs).1.1 = sessions s \/
  exists sid, sessions (handleWS s hs).1.1 = delete sid (sessions s).
Proof.
  destruct (handleWS_cases s hs)
    as [(err & _ & Hout)|[(sid0 & _ & Hout)|[(sid0 & r0 & msg & _ & Hout)
       |(sid0 & r0 & c & _ & _ & _ & _ & Hout)]]];
    rewrite Hout; simpl; auto.
  destruct (loadUser s sid0); simpl; eauto.
Qed.

Lemma runOp_store (s : Server) (op : Op) :
  (forall sid u, sessions s !! sid = Some u ->
                 exists name, Users s !! name = Some u) ->
  forall sid u, sessions (runOp s op) !! sid = Some u ->
                exists name, Users s !! name = Some u.
Proof.
  intros Hinv sid u. destruct op as [user sid0 pass|hs]; simpl.
  - unfold authUser. case_decide; [apply Hinv|].
    destruct (Users s !! user) as [u0|] eqn:Hu; [|apply Hinv].
    destruct (negb _); [apply Hinv|]. simpl.
    destruct (decide (sid0 = sid)) as [->|Hne].
    + rewrite lookup_insert_eq. intros [= <-]. eauto.
    + rewrite lookup_insert_ne by exact Hne. apply Hinv.
  - destruct (handleWS_sessions s hs) as [->|[sid0 ->]]; [apply Hinv|].
    intros Hl. apply lookup_delete_Some in Hl as [_ Hl]. eauto.
Qed.

Lemma runOp_Users (s : Server) (op : Op) : Users (runOp s op) = Users s.
Proof.
  destruct op as [user sid pass|hs]; simpl;
    [apply authUser_Users | apply handleWS_Users].
Qed.

(** The session store only ever holds users of the user table: starting
    from the empty store of [NewServer], after any calls of [authUser]
    and any sessions, every record is a user that [Users] has. *)
Theorem sessions_hold_configured_users (users : gmap string User)
    (ops : list Op) (sid : string) (u : User) :
  sessions (runOps (NewServer users) ops) !! sid = Some u ->
  exists name, users !! name = Some u.
Proof.
  assert (Hgen : forall s,
            (forall sid u, sessions s !! sid = Some u ->
                           exists name, Users s !! name = Some u) ->
            forall sid u, sessions (runOps s ops) !! sid = Some u ->
                          exists name, Users s !! name = Some u).
  { induction ops as [|op ops IH]; intros s Hinv; [exact Hinv|].
    change (runOps s (op :: ops)) with (runOps (runOp s op) ops).
    intros sid' u' Hl.
    rewrite <- (runOp_Users s op). revert sid' u' Hl. apply IH.
    intros sid' u' Hl. rewrite runOp_Users. revert sid' u' Hl.
    now apply runOp_store. }
  apply (Hgen (NewServer users)). intros sid' u' Hl.
  simpl in Hl. rewrite lookup_empty in Hl. discriminate.
Qed.

(** [listen] stores a listener exactly when it returns no error for a
    rule that is not stdio, and logs "Listening" exactly then; with an
    error nothing is stored or logged. *)
Theorem listen_stores_listener_iff_ok (p : Proxy) (env : ListenEnv) :
  let res := listen p env in
  (res.1.1 <> None <-> res.2 = None /\ Stdio (remote p) = false) /\
  (In (PInfof "Listening") res.1.2 <-> res.1.1 <> None) /\
  (res.2 <> None -> res.1.1 = None /\ res.1.2 = []) /\
  (Stdio (remote p) = true -> res = (None, [], None)).
Proof.
  intros res. subst res. unfold listen.
  destruct (Stdio (remote p)) eqn:Hs;
    [|destruct (String.eqb (LocalProto (remote p)) "tcp");
      [destruct (resolveErr env); [|destruct (listenErr env)]
      |destruct (String.eqb (LocalProto (remote p)) "udp");
       [destruct (bindErr env)|]]];
    simpl; intuition (try congruence; try discriminate).
Qed.

End store.

(** ** The further properties on concrete inputs *)

Section further_scenarios.
#[local] Existing Instance scenario.exact.

Lemma authUser_frame_witness :
  (authUser scenario.withBob "bob" "s1" "wrong").2 <> None /\
  (authUser scenario.withBob "bob" "s1" "wrong").1 = scenario.withBob /\
  sessions (authUser scenario.withBob "bob" "s1" "secret").1 !! "s2"%string
  = sessions scenario.withBob !! "s2"%string.
Proof.
  assert (Hf : (authUser scenario.withBob "bob" "s1" "wrong").2 <> None)
    by (vm_compute; discriminate).
  split; [exact Hf|]. split.
  - destruct (authUser_frame scenario.withBob "bob" "s1" "wrong")
      as (_ & _ & _ & Hsame & _).
    exact (Hsame Hf).
  - destruct (authUser_frame scenario.withBob "bob" "s1" "secret")
      as (_ & _ & _ & _ & Hother).
    apply Hother. discriminate.
Defined.

Lemma authenticated_user_is_checked_witness :
  let s := scenario.withBob in
  let r := mkRequest "config" "example.com" in
  let c := mkConfig [scenario.rule "example.com" "80"] in
  (size (Users s) <> 0%nat /\
   Users s !! "bob"%string = Some scenario.bob /\
   Pass scenario.bob = "secret"%string /\
   ReqType r = "config"%string /\
   DecodeConfig (Payload r) = Some c) /\
  (handleWS (authUser s "bob" "s1" "secret").1 (HandshakeOK "s1" (Some r))).2
  = Served.
Proof.
  intros s r c.
  assert (Hz : size (Users s) <> 0%nat) by (vm_compute; discriminate).
  assert (Hu : Users s !! "bob"%string = Some scenario.bob) by reflexivity.
  assert (Hp : Pass scenario.bob = "secret"%string) by reflexivity.
  assert (Ht : ReqType r = "config"%string) by reflexivity.
  assert (Hd : DecodeConfig (Payload r) = Some c) by reflexivity.
  split; [auto|].
  destruct (authenticated_user_is_checked s "bob" "s1" "secret"
              scenario.bob r c Hz Hu Hp Ht Hd) as [Hiff _].
  apply Hiff. reflexivity.
Defined.

Lemma served_session_record_is_removed_witness :
  let s := scenario.withBob in
  let r := mkRequest "config" "example.com" in
  let s1 := (authUser s "bob" "s1" "secret").1 in
  let out := handleWS s1 (HandshakeOK "s1" (Some r)) in
  (size (Users s) <> 0%nat /\
   Users s !! "bob"%string = Some scenario.bob /\
   Pass scenario.bob = "secret"%string /\
   out.2 = Served /\
   sessions s !! "s1"%string = None) /\
  sessions s1 !! "s1"%string = Some scenario.bob /\
  sessions out.1.1 = sessions s.
Proof.
  intros s r s1 out.
  assert (Hz : size (Users s) <> 0%nat) by (vm_compute; discriminate).
  assert (Hu : Users s !! "bob"%string = Some scenario.bob) by reflexivity.
  assert (Hp : Pass scenario.bob = "secret"%string) by reflexivity.
  assert (Hs : out.2 = Served) by (vm_compute; reflexivity).
  assert (Hn : sessions s !! "s1"%string = None) by reflexivity.
  split; [auto|].
  destruct (served_session_record_is_removed s "bob" "s1" "secret"
              scenario.bob r Hz Hu Hp Hs) as (Hin & _ & Hback).
  split; [exact Hin | exact (Hback Hn)].
Defined.

Lemma unserved_session_keeps_record_witness :
  let s := scenario.withBob in
  let hs := HandshakeOK "s1" (Some (mkRequest "ping" "x")) in
  let s1 := (authUser s "bob" "s1" "secret").1 in
  ((handleWS s hs).2 <> Served /\ (handleWS s1 hs).2 <> Served) /\
  (handleWS s hs).1.1 = s /\
  sessions (handleWS s1 hs).1.1 !! "s1"%string = Some scenario.bob.
Proof.
  intros s hs s1.
  assert (Hn : (handleWS s hs).2 <> Served) by (vm_compute; discriminate).
  assert (Hn1 : (handleWS s1 hs).2 <> Served) by (vm_compute; discriminate).
  split; [auto|].
  destruct (unserved_session_keeps_record s hs Hn) as [Hsame Hrec].
  split; [exact Hsame|].
  apply (Hrec "bob"%string "s1"%string "secret"%string scenario.bob);
    [vm_compute; discriminate | reflexivity | reflexivity | exact Hn1].
Defined.

Lemma wsCount_counts_served_witness :
  - 2 ^ 63 <= wsCount scenario.anonymous < 2 ^ 63 /\
  servedCount scenario.anonymous scenario.someOps = 2 /\
  wsCount (runOps scenario.anonymous scenario.someOps) = 2.
Proof.
  assert (Hr : - 2 ^ 63 <= wsCount scenario.anonymous < 2 ^ 63)
    by (simpl; lia).
  assert (Hc : servedCount scenario.anonymous scenario.someOps = 2)
    by (vm_compute; reflexivity).
  split; [exact Hr|]. split; [exact Hc|].
  destruct (wsCount_counts_served scenario.anonymous scenario.someOps Hr)
    as (_ & _ & Hsmall).
  rewrite Hsmall; rewrite Hc; simpl; lia.
Defined.

Lemma handleWS_replies_are_rejections_witness :
  let s := scenario.bobIn in
  let hs := HandshakeOK "s1"
              (Some (mkRequest "config" "example.com+internal")) in
  let msg := "server: access to 'internal:22' denied"%string in
  In (Reply false msg) (handleWS s hs).1.2 /\
  handleWS s hs = (s, [Reply false msg; ConnClose], Rejected).
Proof.
  intros s hs msg.
  assert (Hin : In (Reply false msg) (handleWS s hs).1.2)
    by (vm_compute; now left).
  split; [exact Hin|].
  destruct (handleWS_replies_are_rejections s hs) as (Hrep & _ & _).
  exact (proj2 (Hrep false msg Hin)).
Defined.

Lemma handleWS_endings_witness :
  (handleWS scenario.withBob (HandshakeOK "s1" None)).2 = Panicked /\
  (handleWS scenario.withBob (HandshakeOK "s1" None)).1.1 = scenario.withBob.
Proof.
  destruct (handleWS_endings scenario.withBob (HandshakeOK "s1" None))
    as (Hp & _ & Hsame).
  assert (He : (handleWS scenario.withBob (HandshakeOK "s1" None)).2
               = Panicked) by (apply Hp; eauto).
  split; [exact He|]. apply Hsame. now left.
Defined.

Lemma accepted_streams_are_closed_witness :
  rtc dispatch (mkDispatcher scenario.plain [] []) scenario.webServing /\
  countEvents isAccept (trace scenario.webServing) =
  countEvents isStreamClose (trace scenario.webServing)
  + countHolding (handlers scenario.webServing).
Proof.
  split; [exact webServing_reached|].
  exact (proj1 (accepted_streams_are_closed scenario.plain
                  scenario.webServing webServing_reached)).
Defined.

Lemma socks_is_served_only_with_a_server_witness :
  rtc dispatch (mkDispatcher scenario.plain [] []) scenario.webServing /\
  socksServer (tunnel scenario.webServing) = socksServer scenario.plain.
Proof.
  split; [exact webServing_reached|].
  exact (proj1 (socks_is_served_only_with_a_server scenario.plain
                  scenario.webServing webServing_reached)).
Defined.

Lemma close_line_shows_error_witness :
  let t := scenario.plain in
  let ch := scenario.webChannel in
  let e := scenario.refusedError in
  ((ExtraData ch = "socks"%string -> socksServer t <> None) /\
   AcceptErr ch = None /\
   (protocolHandler 1 ch).2 = Some e /\
   forall before, e <> before +:+ "EOF") /\
  exists id' stats, In (LogClose id' stats (Some e)) (handleSSHChannel t ch).2.
Proof.
  intros t ch e.
  assert (Hs : ExtraData ch = "socks"%string -> socksServer t <> None)
    by discriminate.
  assert (Ha : AcceptErr ch = None) by reflexivity.
  assert (Hp : (protocolHandler 1 ch).2 = Some e) by reflexivity.
  assert (Hno : forall before, e <> before +:+ "EOF").
  { intros before Hb.
    assert (Hsuf : HasSuffix e "EOF" = true)
      by (apply HasSuffix_spec; eauto).
    vm_compute in Hsuf. discriminate. }
  split; [auto|].
  apply (close_line_shows_error t ch e Hs Ha). split; [exact Hp | exact Hno].
Defined.

Lemma pipeRemote_closes_its_source_witness :
  let p := scenario.stdioProxy in
  let conn := Some (OpenChannelOK 10 20) in
  In (PPipe StdioSrc) (pipeRemote p StdioSrc conn).2 /\
  exists sent received, conn = Some (OpenChannelOK sent received).
Proof.
  intros p conn.
  assert (Hin : In (PPipe StdioSrc) (pipeRemote p StdioSrc conn).2)
    by (vm_compute; auto).
  split; [exact Hin|].
  destruct (pipeRemote_closes_its_source p StdioSrc conn)
    as (_ & _ & _ & Hpipe).
  exact (proj2 (Hpipe StdioSrc Hin)).
Defined.


Lemma runStdio_returns_iff_cancelled_witness :
  let p := scenario.stdioProxy in
  let env := scenario.cancelledInThird in
  (exists k, (k < 3)%nat /\ done env (0 + k)%nat = true) /\
  exists p' evs, runStdio 3 p (ssh env) (done env) 0 = Some (p', evs).
Proof.
  intros p env.
  assert (Hk : exists k, (k < 3)%nat /\ done env (0 + k)%nat = true)
    by (exists 2%nat; split; [lia | reflexivity]).
  split; [exact Hk|].
  exact (proj2 (runStdio_returns_iff_cancelled 3 p (ssh env) (done env) 0) Hk).
Defined.

Lemma runStdio_rounds_witness :
  let p := scenario.stdioProxy in
  let env := scenario.cancelledInThird in
  (- 2 ^ 63 <= count p < 2 ^ 63 /\
   done env 2%nat = true /\
   (forall j, (j < 2)%nat -> done env j = false)) /\
  runStdio 2 p (ssh env) (done env) 0 = None /\
  exists p' evs,
    runStdio 3 p (ssh env) (done env) 0 = Some (p', evs) /\ count p' = 3.
Proof.
  intros p env.
  assert (Hr : - 2 ^ 63 <= count p < 2 ^ 63) by (simpl; lia).
  assert (Hd : done env 2%nat = true) by reflexivity.
  assert (Hb : forall j, (j < 2)%nat -> done env j = false).
  { intros j Hj. destruct j as [|[|j]]; [reflexivity | reflexivity | lia]. }
  split; [auto|]. split.
  - apply (proj1 (runStdio_rounds 2 2 p (ssh env) (done env) Hr Hd Hb)). lia.
  - destruct (proj2 (runStdio_rounds 3 2 p (ssh env) (done env) Hr Hd Hb))
      as (p' & evs & Hrun & _ & Hcnt & _); [lia|].
    exists p', evs. split; [exact Hrun|]. rewrite Hcnt. reflexivity.
Defined.

Lemma Run_panics_iff_witness :
  let p := mkProxy (mkLogger "proxy#1: ") 1 0 scenario.sctpRule in
  (Stdio (remote p) = false /\
   LocalProto (remote p) <> "tcp"%string /\
   LocalProto (remote p) <> "udp"%string) /\
  (Run 0 p scenario.cancelledInThird).2 = Panics "should not get here".
Proof.
  intros p.
  assert (Hu : Stdio (remote p) = false /\
               LocalProto (remote p) <> "tcp"%string /\
               LocalProto (remote p) <> "udp"%string)
    by (split; [reflexivity | split; discriminate]).
  split; [exact Hu|].
  apply (Run_panics_iff 0 p scenario.cancelledInThird "should not get here").
  split; [reflexivity | right; exact Hu].
Defined.

Lemma NewProxy_listens_witness :
  let r := scenario.rule "example.com" "80" in
  let p := (NewProxy scenario.forkProxy 0 r scenario.allBound).1 in
  let res := (NewProxy scenario.forkProxy 0 r scenario.allBound).2 in
  (res.2 = None /\ Stdio r = false) /\
  id p = 1 /\
  res.1.1 = Some TCPListener /\
  forall fuel renv msg, (Run fuel p renv).2 <> Panics msg.
Proof.
  intros r p res.
  assert (Hok : res.2 = None) by reflexivity.
  assert (Hs : Stdio r = false) by reflexivity.
  split; [auto|].
  destruct (NewProxy_listens scenario.forkProxy 0 r scenario.allBound)
    as (Hid & _ & _ & Hgood & _).
  split; [exact Hid|].
  destruct (Hgood Hok Hs) as [Hl Hrun].
  split; [reflexivity | exact Hrun].
Defined.

Lemma handleSSHRequests_answers_pings_witness :
  let reqs := ["ping"; "keepalive"; "ping"]%string in
  (In "keepalive"%string reqs /\ "keepalive"%string <> "ping"%string) /\
  In (TDebugf "Unknown request: keepalive") (handleSSHRequests reqs) /\
  countEvents isReply (handleSSHRequests reqs) = 2.
Proof.
  intros reqs.
  assert (Hin : In "keepalive"%string reqs) by (right; now left).
  assert (Hne : "keepalive"%string <> "ping"%string) by discriminate.
  split; [auto|].
  destruct (handleSSHRequests_answers_pings reqs) as (Hc & _ & Hu & _).
  split; [exact (Hu _ Hin Hne) | exact Hc].
Defined.

Lemma accepted_channel_is_routed_by_tag_witness :
  let t := scenario.plain in
  let ch := scenario.webChannel in
  ((ExtraData ch = "socks"%string -> socksServer t <> None) /\
   AcceptErr ch = None) /\
  In (NetDial "tcp" "web:80") (handleSSHChannel t ch).2 /\
  ~ In TPipe (handleSSHChannel t ch).2.
Proof.
  intros t ch.
  assert (Hs : ExtraData ch = "socks"%string -> socksServer t <> None)
    by discriminate.
  assert (Ha : AcceptErr ch = None) by reflexivity.
  split; [auto|].
  destruct (accepted_channel_is_routed_by_tag t ch Hs Ha)
    as (_ & _ & Hdial & Hpipe).
  split.
  - apply Hdial. repeat split; discriminate.
  - intros Hin. apply Hpipe in Hin as (_ & _ & Hd). discriminate.
Defined.

Lemma refused_channels_leave_the_tunnel_witness :
  refused scenario.plain scenario.socksChannel = true /\
  (handleSSHChannel scenario.plain scenario.socksChannel).1 = scenario.plain /\
  (handleSSHChannels scenario.plain
     [scenario.socksChannel; scenario.webChannel]).1 =
  (handleSSHChannels scenario.plain [scenario.webChannel]).1.
Proof.
  assert (Hr : refused scenario.plain scenario.socksChannel = true)
    by reflexivity.
  split; [exact Hr|].
  destruct (refused_channels_leave_the_tunnel scenario.plain
              [scenario.socksChannel; scenario.webChannel]) as [Hone Hall].
  split; [exact (proj1 (Hone _ Hr)) | exact Hall].
Defined.

Lemma sessions_hold_configured_users_witness :
  let users : gmap string User := {[ "bob"%string := scenario.bob ]} in
  let ops := [Authenticate "bob" "s1" "secret"] in
  sessions (runOps (NewServer users) ops) !! "s1"%string = Some scenario.bob /\
  exists name, users !! name = Some scenario.bob.
Proof.
  intros users ops.
  assert (Hl : sessions (runOps (NewServer users) ops) !! "s1"%string
               = Some scenario.bob) by reflexivity.
  split; [exact Hl|].
  exact (sessions_hold_configured_users users ops "s1" scenario.bob Hl).
Defined.

Lemma listen_stores_listener_iff_ok_witness :
  let res := listen scenario.tcpProxy scenario.allBound in
  (res.2 = None /\ Stdio (remote scenario.tcpProxy) = false) /\
  res.1.1 <> None /\
  In (PInfof "Listening") res.1.2.
Proof.
  intros res.
  assert (Hok : res.2 = None /\ Stdio (remote scenario.tcpProxy) = false)
    by (split; reflexivity).
  split; [exact Hok|].
  destruct (listen_stores_listener_iff_ok scenario.tcpProxy scenario.allBound)
    as (Hl & Hlog & _ & _).
  assert (Hsome : res.1.1 <> None) by (apply Hl; exact Hok).
  split; [exact Hsome | now apply Hlog].
Defined.

End further_scenarios.
